(** * Collaborative-filtering lab: a shallow embedding of [lab_3.ipynb]

    The notebook is a sequence of cells that call pandas, numpy,
    scikit-learn and Keras.  Each library call the notebook relies on is
    given a small functional model (modules [np], [pd], [sk], [keras]),
    and the notebook's own functions ([cosine], [most_similar],
    [recommend]) and cells are then transcribed on top of these models.

    Conventions.
    - Python exceptions are values of [exn]; a computation that may raise
      has type [result A].
    - Identifiers (user ids, item ids, row positions) are natural numbers,
      as in the data set; they are integers where the behaviour on an id
      that may be negative is at stake ([predict_int]).
    - Scores (embedding coordinates, similarities, predicted ratings) are
      real numbers, where the program computes in floating point.  What
      is stated about scores is therefore limited to what does not depend
      on rounding: which positions are selected, in which order scores
      are listed, their sign, and values that are computed exactly (zero
      for a zero row, small integer products).
    - Where a library leaves a choice open (the order numpy's [argsort]
      gives to equal values, the device a TensorFlow lookup runs on), the
      choice is a parameter. *)

From Stdlib Require Import String Ascii.
From Stdlib Require Import List Arith Lia Bool.
From Stdlib Require Import Permutation Sorted.
From Stdlib Require Import ZArith QArith Qround.
From Stdlib Require Import Reals Lra.
Import ListNotations.

Local Open Scope nat_scope.
Local Open Scope list_scope.

(** ** Exceptions *)

Inductive exn : Type :=
| KeyError              (* pandas: label not in index *)
| IndexError            (* numpy: position out of bounds *)
| ValueError            (* scikit-learn / Keras: invalid argument value *)
| TypeError             (* Python: operand of the wrong type *)
| UnboundLocalError     (* Keras: [predict] on a batch without samples *)
| InvalidArgumentError. (* TensorFlow: index not in [0, input_dim) *)

Inductive result (A : Type) : Type :=
| Ok (a : A)
| Raise (e : exn).

Arguments Ok {A} a.
Arguments Raise {A} e.

Definition bind {A B : Type} (c : result A) (k : A -> result B) : result B :=
  match c with
  | Ok a => k a
  | Raise e => Raise e
  end.

Notation "x <- c ;; k" := (bind c (fun x => k))
  (at level 61, c at next level, right associativity).

(** A comprehension [[f x for x in l]]: elements are evaluated from left
    to right and the first exception aborts the whole comprehension. *)
Fixpoint mapM {A B : Type} (f : A -> result B) (l : list A) : result (list B) :=
  match l with
  | [] => Ok []
  | x :: t => y <- f x ;; ys <- mapM f t ;; Ok (y :: ys)
  end.

(** ** numpy *)

Module np.

Section Ranking.
Context {A : Type}.
Variable leb : A -> A -> bool.

(** Insertion of an (index, key) pair in front of the first pair whose
    key is not smaller. *)
Fixpoint insert (x : nat * A) (l : list (nat * A)) : list (nat * A) :=
  match l with
  | [] => [x]
  | y :: t => if leb (snd x) (snd y) then x :: l else y :: insert x t
  end.

Definition sort_pairs (l : list (nat * A)) : list (nat * A) :=
  fold_right insert [] l.

Definition enumerate (a : list A) : list (nat * A) :=
  combine (seq 0 (length a)) a.

(** The positions of [a] listed by ascending key, positions of equal
    keys in their original order: a stable sort. *)
Definition stable_argsort (a : list A) : list nat :=
  map fst (sort_pairs (enumerate a)).
End Ranking.

(** [a[::-1]] *)
Definition reversed {A : Type} (a : list A) : list A := rev a.

(** [a[0:n]] *)
Definition head_slice {A : Type} (n : nat) (a : list A) : list A := firstn n a.

(** [a[-n:]]: the last [n] entries; since [-0] is [0], [a[-0:]] is all
    of [a]. *)
Definition tail_slice {A : Type} (n : nat) (a : list A) : list A :=
  if n =? 0 then a else skipn (length a - n) a.

(** [a[i]] for a position [i]. *)
Definition getitem {A : Type} (a : list A) (i : nat) : result A :=
  match nth_error a i with
  | Some x => Ok x
  | None => Raise IndexError
  end.

(** [a[idxs]] for an array of positions. *)
Definition take {A : Type} (a : list A) (idxs : list nat) : result (list A) :=
  mapM (getitem a) idxs.

End np.

(** Python's [range(lo, hi)] *)
Definition range (lo hi : nat) : list nat := seq lo (hi - lo).

(** ** Real-valued scores *)

Definition Rleb (x y : R) : bool := if Rle_dec x y then true else false.

Definition vec : Type := list R.

Fixpoint dot (a b : vec) : R :=
  match a, b with
  | x :: a', y :: b' => (x * y + dot a' b')%R
  | _, _ => 0%R
  end.

Definition l2_norm (a : vec) : R := sqrt (dot a a).

(** ** numpy's [argsort] *)

(** [np.argsort(a)] and [a.argsort()] with the default kind: the
    positions of [a] by ascending value.  The default sort is not stable:
    numpy leaves the relative order of equal values to the sorting kernel
    it selects.  The functions that sort therefore take the kernel as an
    argument, and [argsort_contract] is what numpy promises of it. *)
Definition argsort_kernel : Type := list R -> list nat.

Definition ascending_by (a : list R) (i j : nat) : Prop :=
  (nth i a 0 <= nth j a 0)%R.

Definition argsort_contract (argsort : argsort_kernel) : Prop :=
  forall a : list R,
    Permutation (argsort a) (seq 0 (length a)) /\
    StronglySorted (ascending_by a) (argsort a).

(** One kernel within the contract: the order-preserving one. *)
Definition stable_kernel : argsort_kernel := np.stable_argsort Rleb.

(** A two-dimensional array: its number of columns is part of its shape
    even when it has no rows. *)
Record matrix : Type := { ncols : nat; mrows : list vec }.

Definition well_shaped (M : matrix) : Prop :=
  Forall (fun r => length r = ncols M) (mrows M).

(** [a.reshape(1, -1)] *)
Definition reshape_row (a : vec) : matrix :=
  {| ncols := length a; mrows := [a] |}.

(** ** scikit-learn: pairwise cosine similarity *)

Module sk.

(** Machine epsilon of the arrays' type: the embedding weights are
    float32, for which it is 2^-23. *)
Definition eps : R := (/ 8388608)%R.

(** [sklearn.preprocessing.normalize] divides every row by its L2 norm,
    after [_handle_zeros_in_scale] has replaced a norm below ten machine
    epsilons by one: a zero row, and a row that is nearly zero, is left
    as it is, and no division by zero takes place. *)
Definition row_scale (a : vec) : R :=
  if Rlt_dec (l2_norm a) (10 * eps) then 1%R else l2_norm a.

Definition normalize_row (a : vec) : vec :=
  map (fun x => (x / row_scale a)%R) a.

(** [check_pairwise_arrays]: both arguments need at least one row and one
    column, and the same number of columns. *)
Definition check_pairwise_arrays (X Y : matrix) : result unit :=
  if (length (mrows X) =? 0) || (length (mrows Y) =? 0)
     || (ncols X =? 0) || (ncols Y =? 0)
  then Raise ValueError
  else if ncols X =? ncols Y then Ok tt else Raise ValueError.

(** [cosine_similarity(X, Y)]: entry (i, j) is the dot product of the
    normalised row i of [X] and the normalised row j of [Y]. *)
Definition cosine_similarity (X Y : matrix) : result (list (list R)) :=
  _ <- check_pairwise_arrays X Y ;;
  Ok (map (fun x => map (fun y => dot (normalize_row x) (normalize_row y)) (mrows Y))
          (mrows X)).

(** *** scikit-learn: [train_test_split] *)

Section Split.
(** The state of a pseudo-random generator, [RandomState(seed)], and
    [rng.permutation(n)], which draws an ordering of [0 .. n-1] and
    advances the generator. *)
Context {rng : Type}.
Variable RandomState : nat -> rng.
Variable permutation : rng -> nat -> list nat * rng.

(** [check_random_state]: an integer seeds a fresh generator and leaves
    numpy's global generator [g] alone; [None] draws from the global
    generator and advances it. *)
Definition draw_permutation (random_state : option nat) (g : rng) (n : nat)
    : list nat * rng :=
  match random_state with
  | Some seed => (fst (permutation (RandomState seed) n), g)
  | None => permutation g n
  end.

Definition in_unit_interval (f : Q) : bool :=
  if Qlt_le_dec 0 f then (if Qlt_le_dec f 1 then true else false) else false.

(** [n_test = ceil(test_size * n_samples)].  The fraction is a rational
    and the product is exact; Python multiplies two floats and rounds the
    product before [ceil], which can change the count by one row when the
    product is within rounding of an integer. *)
Definition n_test_of (test_size : Q) (n_samples : nat) : nat :=
  Z.to_nat (Qceiling (test_size * inject_Z (Z.of_nat n_samples))).

(** [train_test_split(rows, test_size=f, random_state=s)] with a float
    [test_size]: the first [n_test] drawn positions select the test
    rows, the remaining ones the train rows.  A fraction outside (0, 1)
    and an empty train set are rejected. *)
Definition train_test_split {Row : Type} (rows : list Row) (test_size : Q)
    (random_state : option nat) (g : rng)
    : result (list Row * list Row) * rng :=
  let n_samples := length rows in
  if negb (in_unit_interval test_size) then (Raise ValueError, g)
  else
    let n_test := n_test_of test_size n_samples in
    let n_train := n_samples - n_test in
    if n_train =? 0 then (Raise ValueError, g)
    else
      let (perm, g') := draw_permutation random_state g n_samples in
      let ind_test := firstn n_test perm in
      let ind_train := firstn n_train (skipn n_test perm) in
      (train <- np.take rows ind_train ;;
       test <- np.take rows ind_test ;;
       Ok (train, test), g').
End Split.

End sk.

(** ** The notebook's [cosine] *)

Definition cosine (a b : vec) : result R :=
  K <- sk.cosine_similarity (reshape_row a) (reshape_row b) ;;
  row <- np.getitem K 0 ;;
  np.getitem row 0.

Definition zero_vector (a : vec) : Prop := Forall (fun x => x = 0%R) a.

(** ** pandas *)

Module pd.

(** [pd.merge(left, right)] on the one column the two frames share
    (always [item_id] in the notebook): an inner join.  A result row pairs
    a left row with a right row of the same key; left rows without a
    partner, and right rows without a partner, do not appear. *)
Definition merge {L Rt : Type} (lkey : L -> nat) (rkey : Rt -> nat)
    (left : list L) (right : list Rt) : list (L * Rt) :=
  flat_map (fun l => map (fun r => (l, r)) (filter (fun r => rkey r =? lkey l) right))
           left.

(** Number of left rows that carry the key of a right row. *)
Definition partners {L Rt : Type} (lkey : L -> nat) (rkey : Rt -> nat)
    (left : list L) (r : Rt) : nat :=
  length (filter (fun l => rkey r =? lkey l) left).

(** One step of [groupby(key).size()]: count the key in a table of
    (key, count) rows kept in ascending key order. *)
Fixpoint count_key (k : nat) (acc : list (nat * nat)) : list (nat * nat) :=
  match acc with
  | [] => [(k, 1)]
  | (k', c) :: t =>
      if k <? k' then (k, 1) :: acc
      else if k =? k' then (k', S c) :: t
      else (k', c) :: count_key k t
  end.

(** [df.groupby(key).size().reset_index(name=...)]: one row per distinct
    key, in ascending key order, with the number of rows having it. *)
Definition groupby_size (keys : list nat) : list (nat * nat) :=
  fold_right count_key [] keys.

(** [df.set_index(key)]: rows labelled by their key. *)
Definition set_index {Row : Type} (key : Row -> nat) (df : list Row) : list (nat * Row) :=
  map (fun r => (key r, r)) df.

(** [df[name]] on a labelled frame: the labelled column. *)
Definition column {Row V : Type} (f : Row -> V) (df : list (nat * Row)) : list (nat * V) :=
  map (fun p => (fst p, f (snd p))) df.

(** [s.loc[label]]: label-based lookup; a missing label is a [KeyError].
    [item_id] is the unique key of the items table, so a label selects at
    most one row. *)
Definition loc {V : Type} (s : list (nat * V)) (label : nat) : result V :=
  match find (fun p => fst p =? label) s with
  | Some p => Ok (snd p)
  | None => Raise KeyError
  end.

(** The rows of a series that carry a label, in the order of the
    series; none at all is a [KeyError]. *)
Definition loc_all {V : Type} (s : list (nat * V)) (label : nat) : result (list V) :=
  match filter (fun p => fst p =? label) s with
  | [] => Raise KeyError
  | rows => Ok (map snd rows)
  end.

(** [s[labels]] for an integer array on an integer-labelled series:
    label-based as well.  Every label has to be present, and a label that
    several rows carry selects all of them. *)
Definition getitem_labels {V : Type} (s : list (nat * V)) (labels : list nat)
    : result (list V) :=
  rows <- mapM (loc_all s) labels ;;
  Ok (concat rows).

(** [col.max()] of an integer column; an empty column has no maximum
    (pandas answers NaN, which [range] then rejects). *)
Definition max (col : list nat) : result nat :=
  match col with
  | [] => Raise TypeError
  | x :: t => Ok (fold_left Nat.max t x)
  end.

Section Dates.
Context {Timestamp : Type}.
(** The date parser behind [pd.to_datetime]. *)
Variable parse : string -> option Timestamp.

(** [pd.to_datetime(col)] with the default [errors='raise']: a missing
    value becomes NaT, a string that parses becomes its timestamp, and a
    string that does not parse raises. *)
Definition to_datetime_cell (c : option string) : result (option Timestamp) :=
  match c with
  | None => Ok None
  | Some s =>
      match parse s with
      | Some t => Ok (Some t)
      | None => Raise ValueError
      end
  end.

Definition to_datetime (col : list (option string)) : result (list (option Timestamp)) :=
  mapM to_datetime_cell col.

(** The value of a cell once converted, when the conversion succeeds. *)
Definition converted (c : option string) : option Timestamp :=
  match c with None => None | Some s => parse s end.
End Dates.

End pd.

(** ** The tables of the notebook *)

Record Timestamp : Type := { ts_year : nat; ts_month : nat; ts_day : nat }.

(** A line of [u.data]. *)
Module Rating.
Record t : Type :=
  { user_id : nat; item_id : nat; rating : nat; timestamp : nat }.
End Rating.

(** A line of [u.item] as read by [pd.read_csv]: an empty field is a
    missing value. *)
Module RawItem.
Record t : Type :=
  { item_id : nat; title : string; release_date : option string;
    video_release_date : option string; imdb_url : option string }.
End RawItem.

(** A row of [items] once [release_date] is a timestamp and
    [release_year] has been added. *)
Module Item.
Record t : Type :=
  { item_id : nat; title : string; release_date : option Timestamp;
    video_release_date : option string; imdb_url : option string;
    release_year : option nat }.
End Item.

(** A row of [popularity]. *)
Module Popularity.
Record t : Type := { item_id : nat; popularity : nat }.
End Popularity.

Section DateCell.
Variable parse : string -> option Timestamp.

Definition dated (r : RawItem.t) (d : option Timestamp) : Item.t :=
  {| Item.item_id := RawItem.item_id r;
     Item.title := RawItem.title r;
     Item.release_date := d;
     Item.video_release_date := RawItem.video_release_date r;
     Item.imdb_url := RawItem.imdb_url r;
     (* .dt.year: NaT has no year *)
     Item.release_year := option_map ts_year d |}.

(** The cell
    [items['release_date'] = pd.to_datetime(items['release_date'])]
    [items['release_year'] = items['release_date'].dt.year]. *)
Definition release_year_cell (items : list RawItem.t) : result (list Item.t) :=
  dates <- pd.to_datetime parse (map RawItem.release_date items) ;;
  Ok (map (fun p => dated (fst p) (snd p)) (combine items dates)).
End DateCell.

(** [all_ratings = pd.merge(items, raw_ratings)] *)
Definition merge_items_ratings (items : list Item.t) (raw_ratings : list Rating.t)
    : list (Item.t * Rating.t) :=
  pd.merge Item.item_id Rating.item_id items raw_ratings.

(** [popularity = all_ratings.groupby('item_id').size().reset_index(name='popularity')] *)
Definition popularity_of (all_ratings : list (Item.t * Rating.t)) : list Popularity.t :=
  map (fun p => {| Popularity.item_id := fst p; Popularity.popularity := snd p |})
      (pd.groupby_size (map (fun row => Item.item_id (fst row)) all_ratings)).

(** [items = pd.merge(popularity, items)] *)
Definition merge_popularity_items (popularity : list Popularity.t) (items : list Item.t)
    : list (Popularity.t * Item.t) :=
  pd.merge Popularity.item_id Item.item_id popularity items.

(** [all_ratings = pd.merge(popularity, all_ratings)] *)
Definition merge_popularity_ratings (popularity : list Popularity.t)
    (all_ratings : list (Item.t * Rating.t))
    : list (Popularity.t * (Item.t * Rating.t)) :=
  pd.merge Popularity.item_id (fun row => Item.item_id (fst row)) popularity all_ratings.

(** The frames the later cells read as globals. *)
Record Frames : Type :=
  { items : list (Popularity.t * Item.t);
    all_ratings : list (Popularity.t * (Item.t * Rating.t));
    indexed_items : list (nat * (Popularity.t * Item.t)) }.

(** Column accessors of the merged frames. *)
Definition items_item_id (row : Popularity.t * Item.t) : nat :=
  Popularity.item_id (fst row).
Definition items_title (row : Popularity.t * Item.t) : string :=
  Item.title (snd row).
Definition ratings_user_id (row : Popularity.t * (Item.t * Rating.t)) : nat :=
  Rating.user_id (snd (snd row)).
Definition ratings_item_id (row : Popularity.t * (Item.t * Rating.t)) : nat :=
  Popularity.item_id (fst row).

(** The data-preparation cells, from the two tables read from disk (with
    dates already converted) to the frames used afterwards. *)
Definition prepare (items0 : list Item.t) (raw_ratings : list Rating.t) : Frames :=
  let all_ratings0 := merge_items_ratings items0 raw_ratings in
  let popularity := popularity_of all_ratings0 in
  let items1 := merge_popularity_items popularity items0 in
  {| items := items1;
     all_ratings := merge_popularity_ratings popularity all_ratings0;
     indexed_items := pd.set_index items_item_id items1 |}.

(** The cell that splits the enriched ratings:
    [train_test_split(all_ratings, test_size=0.2, random_state=0)]. *)
Definition split_cell {rng : Type} (RandomState : nat -> rng)
    (permutation : rng -> nat -> list nat * rng) (env : Frames) (g : rng) :=
  sk.train_test_split RandomState permutation (all_ratings env) (2 # 10) (Some 0) g.

(** ** Keras *)

Module keras.

(** An [Embedding] layer: a table of [input_dim] rows of [output_dim]
    coordinates. *)
Record Embedding : Type :=
  { input_dim : nat; output_dim : nat; weights : list vec }.

(** A freshly built layer; [initializer i j] is the value drawn for
    coordinate [j] of row [i]. *)
Definition build (initializer : nat -> nat -> R) (output_dim input_dim : nat)
    : Embedding :=
  {| input_dim := input_dim;
     output_dim := output_dim;
     weights := map (fun i => map (initializer i) (seq 0 output_dim)) (seq 0 input_dim) |}.

(** Looking up one index that is not negative, on the CPU: TensorFlow's
    gather rejects an index that is not in [0, input_dim). *)
Definition lookup (E : Embedding) (i : nat) : result vec :=
  match nth_error (weights E) i with
  | Some v => Ok v
  | None => Raise InvalidArgumentError
  end.




(** The layer applied to a batch of indexes (followed by [Flatten], which
    leaves one vector per sample). *)
Definition embed (E : Embedding) (inputs : list nat) : result (list vec) :=
  mapM (lookup E) inputs.

(** [Dot(axes=1)]: sample by sample. *)
Definition Dot (us vs : list vec) : list R :=
  map (fun p => dot (fst p) (snd p)) (combine us vs).

End keras.

(** ** [RegressionModel] *)

Record RegressionModel : Type :=
  { user_embedding : keras.Embedding; item_embedding : keras.Embedding }.

(** [RegressionModel.__init__] *)
Definition RegressionModel_init (user_initializer item_initializer : nat -> nat -> R)
    (embedding_size max_user_id max_item_id : nat) : RegressionModel :=
  {| user_embedding := keras.build user_initializer embedding_size (max_user_id + 1);
     item_embedding := keras.build item_initializer embedding_size (max_item_id + 1) |}.

(** The shape fixed by [__init__]; training changes the values of the
    weights, never their shape. *)
Definition sized (E : keras.Embedding) : Prop :=
  length (keras.weights E) = keras.input_dim E /\
  Forall (fun v => length v = keras.output_dim E) (keras.weights E).

Definition model_sized (m : RegressionModel) (max_user_id max_item_id : nat) : Prop :=
  sized (user_embedding m) /\ sized (item_embedding m) /\
  keras.input_dim (user_embedding m) = max_user_id + 1 /\
  keras.input_dim (item_embedding m) = max_item_id + 1 /\
  keras.output_dim (user_embedding m) = keras.output_dim (item_embedding m).

(** [RegressionModel.call] *)
Definition call (m : RegressionModel) (inputs : list nat * list nat) : result (list R) :=
  let user_inputs := fst inputs in
  let item_inputs := snd inputs in
  user_vecs <- keras.embed (user_embedding m) user_inputs ;;
  item_vecs <- keras.embed (item_embedding m) item_inputs ;;
  Ok (keras.Dot user_vecs item_vecs).

(** [model.predict([users, items])]: the two arrays must have the same
    number of samples.  Without any sample no batch is run, and the
    outputs that [predict] then returns were never assigned. *)
Definition predict (m : RegressionModel) (inputs : list nat * list nat) : result (list R) :=
  if negb (length (fst inputs) =? length (snd inputs)) then Raise ValueError
  else if length (fst inputs) =? 0 then Raise UnboundLocalError
  else call m inputs.

(** The predicted rating of one (user, item) pair. *)
Definition predict_one (m : RegressionModel) (user_id item_id : nat) : result R :=
  ys <- predict m ([user_id], [item_id]) ;;
  np.getitem ys 0.



(** [weights = model.get_weights()], [item_embeddings = weights[1]] *)
Definition get_item_embeddings (m : RegressionModel) : matrix :=
  {| ncols := keras.output_dim (item_embedding m);
     mrows := keras.weights (item_embedding m) |}.

(** ** [most_similar] *)

Definition most_similar (argsort : argsort_kernel) (item_id : nat)
    (item_embeddings : matrix) (titles : list (nat * string)) (top_n : nat)
    : result (list (nat * string * R)) :=
  target <- np.getitem (mrows item_embeddings) item_id ;;
  K <- sk.cosine_similarity (reshape_row target) item_embeddings ;;
  let sims := concat K in                                   (* .ravel() *)
  let sorted_indexes := np.reversed (argsort sims) in
  let idxs := np.head_slice top_n sorted_indexes in
  ts <- pd.getitem_labels titles idxs ;;
  ss <- np.take sims idxs ;;
  Ok (combine (combine idxs ts) ss).

(** The intermediate values of [most_similar]: the similarities of all
    rows to the target row, and the positions in the order of
    [sorted_indexes], each with its similarity. *)
Definition similarities (target : vec) (item_embeddings : matrix) : list R :=
  map (fun y => dot (sk.normalize_row target) (sk.normalize_row y))
      (mrows item_embeddings).

Definition ranked (argsort : argsort_kernel) (sims : list R) : list (nat * R) :=
  map (fun j => (j, nth j sims 0%R)) (np.reversed (argsort sims)).

(** The (item, similarity) part of an entry of [most_similar]. *)
Definition entry_id (e : nat * string * R) : nat := fst (fst e).
Definition entry_sim (e : nat * string * R) : R := snd e.
Definition entry_key (e : nat * string * R) : nat * R := (entry_id e, entry_sim e).

(** The order in which [most_similar] lists two entries: the earlier one
    has a similarity that is not smaller. *)
Definition not_below (p q : nat * R) : Prop := (snd q <= snd p)%R.

(** ** [recommend] *)

Definition seen_movies_of (env : Frames) (user_id : nat) : list nat :=
  map ratings_item_id
      (filter (fun row => ratings_user_id row =? user_id) (all_ratings env)).

(** The first lines of [recommend]: the item ids from 1 up to, and not
    including, the largest item id, without those the user has rated. *)
Definition unseen_item_ids (env : Frames) (user_id : nat) : result (list nat) :=
  max_item_id <- pd.max (map items_item_id (items env)) ;;
  let item_ids := range 1 max_item_id in
  let seen_movies := seen_movies_of env user_id in
  Ok (filter (fun x => negb (existsb (Nat.eqb x) seen_movies)) item_ids).

Definition recommend (argsort : argsort_kernel) (env : Frames)
    (model : RegressionModel) (user_id top_n : nat)
    : result (list (string * R)) :=
  item_ids <- unseen_item_ids env user_id ;;
  let user := repeat user_id (length item_ids) in
  ratings <- predict model (user, item_ids) ;;
  let top_items := np.reversed (np.tail_slice top_n (argsort ratings)) in
  mapM (fun item_id =>
          row <- pd.loc (indexed_items env) item_id ;;
          r <- np.getitem ratings item_id ;;
          Ok (items_title row, r))
       top_items.

(** ** A parser for the date format of [u.item], e.g. [01-Jan-1995]

    [pd.to_datetime] accepts many more formats; this parser, which is
    used to run the date cell on sample rows, knows the one of the file:
    a day of one or two digits, an English month abbreviation and a year
    of four digits, separated by dashes, the day existing in the month. *)

Definition digit_of (c : ascii) : option nat :=
  let n := nat_of_ascii c in
  if (48 <=? n) && (n <=? 57) then Some (n - 48) else None.

Definition month_of (s : string) : option nat :=
  if String.eqb s "Jan" then Some 1 else if String.eqb s "Feb" then Some 2
  else if String.eqb s "Mar" then Some 3 else if String.eqb s "Apr" then Some 4
  else if String.eqb s "May" then Some 5 else if String.eqb s "Jun" then Some 6
  else if String.eqb s "Jul" then Some 7 else if String.eqb s "Aug" then Some 8
  else if String.eqb s "Sep" then Some 9 else if String.eqb s "Oct" then Some 10
  else if String.eqb s "Nov" then Some 11 else if String.eqb s "Dec" then Some 12
  else None.

Fixpoint number_of (s : string) (acc : nat) : option nat :=
  match s with
  | EmptyString => Some acc
  | String c s' =>
      match digit_of c with
      | Some d => number_of s' (10 * acc + d)
      | None => None
      end
  end.

(** The fields between dashes; [cur] is the field being read. *)
Fixpoint split_dash (s : string) (cur : string) : list string :=
  match s with
  | EmptyString => [cur]
  | String c s' =>
      if Ascii.eqb c "-" then cur :: split_dash s' EmptyString
      else split_dash s' (cur ++ String c EmptyString)
  end.

Definition leap_year (y : nat) : bool :=
  (y mod 4 =? 0) && (negb (y mod 100 =? 0) || (y mod 400 =? 0)).

Definition days_in_month (m y : nat) : nat :=
  match m with
  | 2 => if leap_year y then 29 else 28
  | 4 | 6 | 9 | 11 => 30
  | _ => 31
  end.

Definition parse_dmy (s : string) : option Timestamp :=
  match split_dash s EmptyString with
  | [day; month; year] =>
      if negb ((1 <=? String.length day) && (String.length day <=? 2)
               && (String.length year =? 4))
      then None
      else
        match number_of day 0, month_of month, number_of year 0 with
        | Some d, Some m, Some y =>
            if (1 <=? d) && (d <=? days_in_month m y)
            then Some {| ts_year := y; ts_month := m; ts_day := d |}
            else None
        | _, _, _ => None
        end
  | _ => None
  end.

(** ** Sample tables *)

Definition movie (i : nat) (t : string) (d : option Timestamp) : Item.t :=
  {| Item.item_id := i; Item.title := t; Item.release_date := d;
     Item.video_release_date := None; Item.imdb_url := None;
     Item.release_year := option_map ts_year d |}.

Definition raw_movie (i : nat) (t : string) (d : option string) : RawItem.t :=
  {| RawItem.item_id := i; RawItem.title := t; RawItem.release_date := d;
     RawItem.video_release_date := None; RawItem.imdb_url := None |}.

Definition rated (u i r : nat) : Rating.t :=
  {| Rating.user_id := u; Rating.item_id := i; Rating.rating := r;
     Rating.timestamp := 0 |}.

Definition sample_items : list Item.t :=
  [ movie 1 "Toy Story" None; movie 2 "GoldenEye" None;
    movie 3 "Four Rooms" None; movie 4 "Get Shorty" None ].

(** User 1 has rated item 1 only; user 2 has rated the other items. *)
Definition sample_ratings : list Rating.t :=
  [ rated 1 1 5; rated 2 2 3; rated 2 3 4; rated 2 4 2 ].

(** A toy generator, used to run the split on sample data: its state is
    a counter, and a draw rotates [0 .. n-1] by the counter. *)
Definition toy_RandomState (seed : nat) : nat := seed.

Definition toy_permutation (r n : nat) : list nat * nat :=
  (skipn (r mod S n) (seq 0 n) ++ firstn (r mod S n) (seq 0 n), S r).

(** Item embeddings for three rows: row 0, which belongs to no item, and
    the rows of items 1 and 2, which point in the same direction. *)
Definition sample_embeddings : matrix :=
  {| ncols := 2; mrows := [ [0; 1]; [1; 0]; [2; 0] ]%R |}.

(** Item embeddings in which the row of item 1 is the zero vector. *)
Definition zero_row_embeddings : matrix :=
  {| ncols := 2; mrows := [ [0; 1]; [0; 0]; [1; 0] ]%R |}.

(** The titles of items 1 and 2, labelled by item id. *)
Definition sample_titles : list (nat * string) :=
  [ (1, "Toy Story"%string); (2, "GoldenEye"%string) ].

(** The same series with an additional row labelled 0. *)
Definition titles_with_row0 : list (nat * string) :=
  (0, "(none)"%string) :: sample_titles.

(** A model with one-dimensional embeddings in which the rating
    predicted for user 1 and item i is i. *)
Definition sample_model : RegressionModel :=
  {| user_embedding :=
       {| keras.input_dim := 3; keras.output_dim := 1;
          keras.weights := [ [0]; [1]; [1] ]%R |};
     item_embedding :=
       {| keras.input_dim := 5; keras.output_dim := 1;
          keras.weights := [ [0]; [1]; [2]; [3]; [4] ]%R |} |}.

(** A model whose item embeddings are [sample_embeddings]. *)
Definition sample_similarity_model : RegressionModel :=
  {| user_embedding := keras.build (fun _ _ => 1%R) 2 3;
     item_embedding :=
       {| keras.input_dim := 3; keras.output_dim := 2;
          keras.weights := mrows sample_embeddings |} |}.

Definition sample_env : Frames := prepare sample_items sample_ratings.

(** ** [print_similarity] *)

(** What the function writes: a title, or the line with the similarity. *)
Inductive printed : Type :=
| Text (s : string)
| Similarity (r : R).

(** [print_similarity(item_a, item_b, item_embeddings, titles)]: the
    lines written so far, and whether the call completed.  The two titles
    are looked up by label and written first, then the two rows are
    fetched and their cosine is written. *)
Definition print_similarity (item_a item_b : nat) (item_embeddings : matrix)
    (titles : list (nat * string)) : list printed * result unit :=
  match pd.loc titles item_a with
  | Raise e => ([], Raise e)
  | Ok title_a =>
      match pd.loc titles item_b with
      | Raise e => ([Text title_a], Raise e)
      | Ok title_b =>
          match (a <- np.getitem (mrows item_embeddings) item_a ;;
                 b <- np.getitem (mrows item_embeddings) item_b ;;
                 cosine a b) with
          | Raise e => ([Text title_a; Text title_b], Raise e)
          | Ok similarity =>
              ([Text title_a; Text title_b; Similarity similarity], Ok tt)
          end
      end
  end.

(** ** The most popular movies *)

(** [df.nlargest(n, column)]: the rows by descending value of the column,
    rows of equal value in their original order, cut after [n] rows. *)
Definition nlargest {Row : Type} (n : nat) (column : Row -> nat) (df : list Row)
    : list Row :=
  firstn n (map snd (np.sort_pairs (fun x y => column y <=? column x)
                                   (np.enumerate df))).

Definition items_popularity (row : Popularity.t * Item.t) : nat :=
  Popularity.popularity (fst row).

(** ** The arrays given to the model *)

(** [np.array(ratings['user_id'])], [np.array(ratings['item_id'])] and
    [np.array(ratings['rating'])] for a frame of enriched ratings. *)
Definition user_id_array (rows : list (Popularity.t * (Item.t * Rating.t))) : list nat :=
  map ratings_user_id rows.
Definition item_id_array (rows : list (Popularity.t * (Item.t * Rating.t))) : list nat :=
  map ratings_item_id rows.
Definition rating_array (rows : list (Popularity.t * (Item.t * Rating.t))) : list R :=
  map (fun row => INR (Rating.rating (snd (snd row)))) rows.

(** The cell that creates the model:
    [RegressionModel(embedding_size=64,
                     max_user_id=all_ratings['user_id'].max(),
                     max_item_id=all_ratings['item_id'].max())].
    Without any rating there are no largest ids and no tables can be
    built. *)
Definition model_cell (user_initializer item_initializer : nat -> nat -> R)
    (env : Frames) : result RegressionModel :=
  max_user_id <- pd.max (user_id_array (all_ratings env)) ;;
  max_item_id <- pd.max (item_id_array (all_ratings env)) ;;
  Ok (RegressionModel_init user_initializer item_initializer 64 max_user_id max_item_id).

(** ** scikit-learn: regression metrics *)

Definition Rsum (l : list R) : R := fold_right Rplus 0%R l.

(** [check_consistent_length] and [check_array]: the two arrays need the
    same number of samples, and at least one. *)
Definition check_reg_targets (y_true y_pred : list R) : result unit :=
  if negb (length y_true =? length y_pred) then Raise ValueError
  else if length y_true =? 0 then Raise ValueError
  else Ok tt.

(** [mean_absolute_error(y_true, y_pred)] *)
Definition mean_absolute_error (y_true y_pred : list R) : result R :=
  _ <- check_reg_targets y_true y_pred ;;
  Ok (Rsum (map (fun p => Rabs (snd p - fst p)) (combine y_true y_pred))
      / INR (length y_true))%R.

(** [mean_squared_error(y_true, y_pred)] *)
Definition mean_squared_error (y_true y_pred : list R) : result R :=
  _ <- check_reg_targets y_true y_pred ;;
  Ok (Rsum (map (fun p => (fst p - snd p) * (fst p - snd p)) (combine y_true y_pred))
      / INR (length y_true))%R.

(** The evaluation cell:
    [test_preds = model.predict([user_id_test, item_id_test])], then
    [mean_squared_error(test_preds, rating_test)] and
    [mean_absolute_error(test_preds, rating_test)]. *)
Definition evaluate_cell (model : RegressionModel)
    (ratings_test : list (Popularity.t * (Item.t * Rating.t))) : result (R * R) :=
  test_preds <- predict model (user_id_array ratings_test, item_id_array ratings_test) ;;
  mse <- mean_squared_error test_preds (rating_array ratings_test) ;;
  mae <- mean_absolute_error test_preds (rating_array ratings_test) ;;
  Ok (mse, mae).

(** ** The frame plotted after t-SNE *)

(** [tsne_df = pd.DataFrame(item_tsne, ...)],
    [tsne_df["item_id"] = np.arange(item_tsne.shape[0])],
    [tsne_df = tsne_df.merge(items.reset_index())]: the projected rows,
    numbered by position, joined on [item_id] with the items table (to
    which [reset_index] has added its row numbers as a column). *)
Definition tsne_frame (item_tsne : list (R * R)) (env : Frames)
    : list ((nat * (R * R)) * (nat * (Popularity.t * Item.t))) :=
  pd.merge fst (fun row => items_item_id (snd row))
           (np.enumerate item_tsne) (np.enumerate (items env)).

(** The absolute and the squared errors, sample by sample. *)
Definition abs_errors (y_true y_pred : list R) : list R :=
  map (fun p => Rabs (snd p - fst p)) (combine y_true y_pred).
Definition squared_errors (y_true y_pred : list R) : list R :=
  map (fun p => ((fst p - snd p) * (fst p - snd p))%R) (combine y_true y_pred).
(** ** Facts about the error monad *)

Lemma mapM_ok_length {A B : Type} (f : A -> result B) (l : list A) (r : list B) :
  mapM f l = Ok r -> length r = length l.
Proof.
  revert r. induction l as [|x t IH]; simpl; intros r H.
  - injection H as <-. reflexivity.
  - destruct (f x) as [y|e]; simpl in H; [|discriminate].
    destruct (mapM f t) as [ys|e]; simpl in H; [|discriminate].
    injection H as <-. simpl. f_equal. now apply IH.
Qed.

Lemma mapM_total {A B : Type} (f : A -> result B) (g : A -> B) (l : list A) :
  (forall x, In x l -> f x = Ok (g x)) -> mapM f l = Ok (map g l).
Proof.
  induction l as [|x t IH]; simpl; intros H; [reflexivity|].
  rewrite (H x (or_introl eq_refl)). simpl.
  rewrite IH by (intros; apply H; now right). reflexivity.
Qed.

(** ** Facts about ranking *)

Lemma enumerate_fst {A : Type} (a : list A) :
  map fst (np.enumerate a) = seq 0 (length a).
Proof.
  unfold np.enumerate. generalize 0.
  induction a as [|x t IH]; intros s; simpl; [reflexivity|].
  now rewrite IH.
Qed.

Lemma enumerate_nth {A : Type} (a : list A) (i : nat) (v : A) :
  In (i, v) (np.enumerate a) <-> nth_error a i = Some v.
Proof.
  unfold np.enumerate.
  assert (G : forall s, In (i, v) (combine (seq s (length a)) a) <->
                        s <= i /\ nth_error a (i - s) = Some v).
  { induction a as [|x t IH]; intros s; simpl.
    - split; [contradiction|]. intros [_ H]. now destruct (i - s).
    - rewrite IH. split.
      + intros [H|[H1 H2]].
        * injection H as <- <-. rewrite Nat.sub_diag. split; [lia|reflexivity].
        * split; [lia|]. replace (i - s) with (S (i - S s)) by lia. exact H2.
      + intros [H1 H2]. destruct (Nat.eq_dec s i) as [->|Hne].
        * rewrite Nat.sub_diag in H2. simpl in H2. injection H2 as <-. now left.
        * right. split; [lia|].
          replace (i - s) with (S (i - S s)) in H2 by lia. exact H2. }
  rewrite G, Nat.sub_0_r. split; [tauto|]. intros H; split; [lia|exact H].
Qed.

Section RankingFacts.
Context {A : Type}.
Variable leb : A -> A -> bool.

Lemma insert_perm (x : nat * A) (l : list (nat * A)) :
  Permutation (np.insert leb x l) (x :: l).
Proof.
  induction l as [|y t IH]; simpl; [apply Permutation_refl|].
  destruct (leb (snd x) (snd y)); [apply Permutation_refl|].
  eapply Permutation_trans; [apply perm_skip, IH|apply perm_swap].
Qed.

Lemma sort_pairs_perm (l : list (nat * A)) :
  Permutation (np.sort_pairs leb l) l.
Proof.
  induction l as [|x t IH]; simpl; [constructor|].
  eapply Permutation_trans; [apply insert_perm|now apply perm_skip].
Qed.

(** A stable sort lists every position exactly once. *)
Lemma stable_argsort_perm (a : list A) :
  Permutation (np.stable_argsort leb a) (seq 0 (length a)).
Proof.
  unfold np.stable_argsort. rewrite <- enumerate_fst.
  apply Permutation_map, sort_pairs_perm.
Qed.

End RankingFacts.

(** ** Facts about dot products and norms *)

Section DotFacts.
Local Open Scope R_scope.

Lemma dot_self_nonneg (a : vec) : 0 <= dot a a.
Proof.
  induction a as [|x t IH]; simpl; [lra|]. nra.
Qed.

Lemma dot_self_zero (a : vec) : dot a a = 0 <-> zero_vector a.
Proof.
  unfold zero_vector. induction a as [|x t IH]; simpl.
  - split; [constructor|reflexivity].
  - pose proof (dot_self_nonneg t) as Ht. split.
    + intros H. assert (x = 0) by nra. assert (dot t t = 0) by nra.
      constructor; [assumption|now apply IH].
    + intros H. inversion H as [|? ? Hx Hr]; subst.
      apply IH in Hr. rewrite Hr. lra.
Qed.

Lemma dot_zero_l (a b : vec) : zero_vector a -> dot a b = 0.
Proof.
  intros H. revert b. induction H as [|x t Hx Ht IH]; intros [|y b]; simpl; try reflexivity.
  rewrite IH, Hx. lra.
Qed.

Lemma dot_comm (a b : vec) : dot a b = dot b a.
Proof.
  revert b. induction a as [|x t IH]; intros [|y b]; simpl; try reflexivity.
  rewrite IH. lra.
Qed.

Lemma dot_scale (a b : vec) (s t : R) :
  s <> 0 -> t <> 0 ->
  dot (map (fun x => x / s) a) (map (fun y => y / t) b) = dot a b / (s * t).
Proof.
  intros Hs Ht. revert b.
  induction a as [|x a IH]; intros [|y b]; simpl; try (field; now split).
  rewrite IH. field. now split.
Qed.

Lemma eps_positive : 0 < sk.eps.
Proof. unfold sk.eps. lra. Qed.

Lemma row_scale_nonzero (a : vec) : sk.row_scale a <> 0.
Proof.
  pose proof eps_positive. unfold sk.row_scale.
  destruct (Rlt_dec (l2_norm a) (10 * sk.eps)); lra.
Qed.

(** The similarity computed by scikit-learn, as one quotient. *)
Lemma dot_normalize (a b : vec) :
  dot (sk.normalize_row a) (sk.normalize_row b)
  = dot a b / (sk.row_scale a * sk.row_scale b).
Proof.
  unfold sk.normalize_row. apply dot_scale; apply row_scale_nonzero.
Qed.

Lemma dot_normalize_zero_l (a b : vec) :
  zero_vector a -> dot (sk.normalize_row a) (sk.normalize_row b) = 0.
Proof.
  intros H. rewrite dot_normalize, (dot_zero_l a b H).
  unfold Rdiv. apply Rmult_0_l.
Qed.


End DotFacts.

Lemma cosine_eq (a b : vec) :
  length a = length b -> 0 < length a ->
  cosine a b = Ok (dot (sk.normalize_row a) (sk.normalize_row b)).
Proof.
  intros Hlen Hpos. unfold cosine, sk.cosine_similarity, sk.check_pairwise_arrays.
  simpl. rewrite <- Hlen.
  destruct (length a) as [|n] eqn:E; [lia|].
  simpl. rewrite Nat.eqb_refl. reflexivity.
Qed.


(** ** The order on scores *)

Lemma Rleb_le (x y : R) : (x <= y)%R -> Rleb x y = true.
Proof. intros H. unfold Rleb. destruct (Rle_dec x y); [reflexivity|contradiction]. Qed.

Lemma Rleb_gt (x y : R) : (y < x)%R -> Rleb x y = false.
Proof. intros H. unfold Rleb. destruct (Rle_dec x y); [lra|reflexivity]. Qed.

Lemma Rleb_true_iff (x y : R) : Rleb x y = true <-> (x <= y)%R.
Proof.
  unfold Rleb. destruct (Rle_dec x y); split; intros; try assumption;
    try reflexivity; try discriminate; contradiction.
Qed.

Lemma Rleb_total (x y : R) : Rleb x y = true \/ Rleb y x = true.
Proof. rewrite !Rleb_true_iff. lra. Qed.

Lemma Rleb_trans (x y z : R) : Rleb x y = true -> Rleb y z = true -> Rleb x z = true.
Proof. rewrite !Rleb_true_iff. lra. Qed.

Ltac eval_Rleb :=
  repeat (first [ rewrite Rleb_le by lra | rewrite Rleb_gt by lra ]; simpl).

(** ** [cosine] *)

(** Two vectors of different dimensions, or without any coordinate, are
    rejected by scikit-learn. *)
Lemma cosine_shape_error (a b : vec) :
  length a <> length b \/ length a = 0 -> cosine a b = Raise ValueError.
Proof.
  intros H. unfold cosine, sk.cosine_similarity, sk.check_pairwise_arrays. simpl.
  destruct (length a) as [|n] eqn:Ea; [reflexivity|].
  destruct (length b) as [|m] eqn:Eb; [reflexivity|]. simpl.
  destruct (Nat.eqb_spec n m) as [->|Hne]; [|reflexivity].
  destruct H as [H|H]; [congruence|discriminate].
Qed.




(** ** [RegressionModel] *)

Lemma build_sized (f : nat -> nat -> R) (d n : nat) : sized (keras.build f d n).
Proof.
  unfold sized, keras.build. simpl. split.
  - now rewrite length_map, length_seq.
  - apply Forall_forall. intros v Hv. apply in_map_iff in Hv.
    destruct Hv as [i [<- _]]. now rewrite length_map, length_seq.
Qed.


Lemma lookup_in_bounds (E : keras.Embedding) (i : nat) :
  sized E -> i < keras.input_dim E ->
  exists v, nth_error (keras.weights E) i = Some v /\ keras.lookup E i = Ok v.
Proof.
  intros [Hlen _] Hi. unfold keras.lookup.
  destruct (nth_error (keras.weights E) i) as [v|] eqn:Ev.
  - exists v. split; reflexivity.
  - apply nth_error_None in Ev. lia.
Qed.










Lemma sample_model_sized : model_sized sample_model 2 4.
Proof.
  unfold sample_model, model_sized, sized. simpl.
  repeat split; repeat constructor.
Qed.



(** ** Inner joins *)

Section MergeFacts.
Context {L Rt : Type}.
Variables (lkey : L -> nat) (rkey : Rt -> nat).

Lemma merge_In (left : list L) (right : list Rt) (l : L) (r : Rt) :
  In (l, r) (pd.merge lkey rkey left right) <->
  In l left /\ In r right /\ rkey r = lkey l.
Proof.
  unfold pd.merge. rewrite in_flat_map. split.
  - intros (l' & Hl & H). apply in_map_iff in H.
    destruct H as (r' & E & Hr). injection E as -> ->.
    apply filter_In in Hr. destruct Hr as [Hr Hk].
    apply Nat.eqb_eq in Hk. auto.
  - intros (Hl & Hr & Hk). exists l. split; [assumption|].
    apply in_map, filter_In. split; [assumption|now apply Nat.eqb_eq].
Qed.

Let partners := pd.partners lkey rkey.

Lemma merge_length_cons (left : list L) (r : Rt) (right : list Rt) :
  length (pd.merge lkey rkey left (r :: right))
  = partners left r + length (pd.merge lkey rkey left right).
Proof.
  unfold pd.merge, partners, pd.partners.
  induction left as [|l left IH]; [reflexivity|].
  cbn [flat_map]. rewrite !length_app, IH, !length_map. simpl.
  destruct (rkey r =? lkey l); simpl; lia.
Qed.

Lemma merge_length_nil (left : list L) : length (pd.merge lkey rkey left []) = 0.
Proof.
  unfold pd.merge. induction left as [|l left IH]; simpl; [reflexivity|exact IH].
Qed.

Lemma partners_unique (left : list L) (r : Rt) :
  NoDup (map lkey left) -> partners left r <= 1.
Proof.
  unfold partners, pd.partners. induction left as [|l left IH]; simpl; intros Hnd; [lia|].
  inversion Hnd as [|? ? Hnotin Hnd']; subst.
  destruct (Nat.eqb_spec (rkey r) (lkey l)) as [E|E]; simpl; [|now apply IH].
  assert (Hnone : filter (fun l0 => rkey r =? lkey l0) left = []).
  { destruct (filter (fun l0 => rkey r =? lkey l0) left) as [|l0 t] eqn:F; [reflexivity|].
    exfalso. assert (Hin : In l0 (filter (fun l0 => rkey r =? lkey l0) left))
      by (rewrite F; now left).
    apply filter_In in Hin. destruct Hin as [Hin Hk]. apply Nat.eqb_eq in Hk.
    apply Hnotin. rewrite <- E, Hk. now apply in_map. }
  rewrite Hnone. simpl. lia.
Qed.

(** With a unique key on the left, the join has at most one row per
    right row. *)
Lemma merge_length_le (left : list L) (right : list Rt) :
  NoDup (map lkey left) ->
  length (pd.merge lkey rkey left right) <= length right.
Proof.
  intros Hnd. induction right as [|r right IH].
  - rewrite merge_length_nil. lia.
  - rewrite merge_length_cons. pose proof (partners_unique left r Hnd). simpl. lia.
Qed.
End MergeFacts.

(** C5: [pd.merge(items, raw_ratings)] is an inner join on [item_id].  It
    is a total function (nothing raises); a rating whose item_id is absent
    from [items] is in no result row; a rating whose item_id is present is
    kept, paired with its item; and, [item_id] being the unique key of
    [items], the result has at most as many rows as [raw_ratings]. *)
Theorem join_inner_semantics (items0 : list Item.t) (raw_ratings : list Rating.t) :
  (forall r, In r raw_ratings ->
     (forall it, In it items0 -> Item.item_id it <> Rating.item_id r) ->
     ~ In r (map snd (merge_items_ratings items0 raw_ratings))) /\
  (forall r it, In r raw_ratings -> In it items0 ->
     Item.item_id it = Rating.item_id r ->
     In (it, r) (merge_items_ratings items0 raw_ratings)) /\
  (forall row, In row (merge_items_ratings items0 raw_ratings) ->
     In (fst row) items0 /\ In (snd row) raw_ratings /\
     Item.item_id (fst row) = Rating.item_id (snd row)) /\
  (NoDup (map Item.item_id items0) ->
     length (merge_items_ratings items0 raw_ratings) <= length raw_ratings).
Proof.
  unfold merge_items_ratings. split; [|split; [|split]].
  - intros r _ Habsent Hin. apply in_map_iff in Hin.
    destruct Hin as ([it r'] & E & Hin). simpl in E. subst r'.
    apply merge_In in Hin. destruct Hin as (Hit & _ & Hk).
    now apply (Habsent it Hit).
  - intros r it Hr Hit Hk. apply merge_In. auto.
  - intros [it r] Hin. apply merge_In in Hin. simpl.
    destruct Hin as (Hit & Hr & Hk). auto.
  - apply merge_length_le.
Qed.

Lemma join_inner_semantics_witness :
  length (merge_items_ratings sample_items (rated 3 9 1 :: sample_ratings)) <= 5.
Proof.
  apply (proj2 (proj2 (proj2
    (join_inner_semantics sample_items (rated 3 9 1 :: sample_ratings))))).
  simpl. repeat constructor; simpl; intuition discriminate.
Defined.

(** ** Group sizes *)

Lemma count_key_keys (k k' : nat) (acc : list (nat * nat)) :
  In k' (map fst (pd.count_key k acc)) <-> k' = k \/ In k' (map fst acc).
Proof.
  induction acc as [|[k0 c] t IH]; simpl.
  - intuition.
  - destruct (Nat.ltb_spec k k0); simpl; [intuition|].
    destruct (Nat.eqb_spec k k0) as [->|Hne]; simpl; [intuition|].
    rewrite IH. intuition.
Qed.

Lemma count_key_positive (k : nat) (acc : list (nat * nat)) :
  Forall (fun p => 1 <= snd p) acc ->
  Forall (fun p => 1 <= snd p) (pd.count_key k acc).
Proof.
  induction 1 as [|[k0 c] t Hc Ht IH]; simpl.
  - repeat constructor.
  - destruct (k <? k0); [repeat constructor; assumption|].
    destruct (k =? k0); constructor; simpl; try assumption; lia.
Qed.

Lemma count_key_sorted (k : nat) (acc : list (nat * nat)) :
  StronglySorted lt (map fst acc) ->
  StronglySorted lt (map fst (pd.count_key k acc)).
Proof.
  induction acc as [|[k0 c] t IH]; simpl; intros Hs.
  - repeat constructor.
  - inversion Hs as [|? ? Hs' Hall]; subst.
    destruct (Nat.ltb_spec k k0); simpl.
    + constructor; [assumption|]. constructor; [assumption|].
      rewrite Forall_forall in Hall |- *. intros z Hz. specialize (Hall z Hz). lia.
    + destruct (Nat.eqb_spec k k0) as [->|Hne]; simpl; [assumption|].
      constructor; [now apply IH|].
      rewrite Forall_forall in Hall |- *. intros z Hz.
      apply count_key_keys in Hz. destruct Hz as [->|Hz]; [lia|now apply Hall].
Qed.

Lemma groupby_size_keys (keys : list nat) (k : nat) :
  In k (map fst (pd.groupby_size keys)) <-> In k keys.
Proof.
  unfold pd.groupby_size. induction keys as [|x t IH]; simpl; [tauto|].
  rewrite count_key_keys, IH. intuition.
Qed.

Lemma groupby_size_positive (keys : list nat) :
  Forall (fun p => 1 <= snd p) (pd.groupby_size keys).
Proof.
  unfold pd.groupby_size. induction keys as [|x t IH]; simpl; [constructor|].
  now apply count_key_positive.
Qed.

(** One row per key, in ascending key order. *)
Lemma groupby_size_sorted (keys : list nat) :
  StronglySorted lt (map fst (pd.groupby_size keys)).
Proof.
  unfold pd.groupby_size. induction keys as [|x t IH]; simpl; [constructor|].
  now apply count_key_sorted.
Qed.

Lemma loc_missing {V : Type} (s : list (nat * V)) (label : nat) :
  (forall p, In p s -> fst p <> label) -> pd.loc s label = Raise KeyError.
Proof.
  intros H. unfold pd.loc.
  destruct (find (fun p => fst p =? label) s) as [p|] eqn:F; [|reflexivity].
  apply find_some in F. destruct F as [Hin Hk]. apply Nat.eqb_eq in Hk.
  now destruct (H p Hin).
Qed.

Lemma loc_present {V : Type} (s : list (nat * V)) (label : nat) :
  In label (map fst s) -> exists v, pd.loc s label = Ok v /\ In (label, v) s.
Proof.
  intros H. unfold pd.loc.
  destruct (find (fun p => fst p =? label) s) as [[k v]|] eqn:F.
  - apply find_some in F. destruct F as [Hin Hk]. apply Nat.eqb_eq in Hk.
    simpl in Hk. subst k. exists v. split; [reflexivity|assumption].
  - apply in_map_iff in H. destruct H as (p & Hp & Hin).
    pose proof (find_none _ _ F p Hin) as Hn. simpl in Hn.
    apply Nat.eqb_neq in Hn. contradiction.
Qed.

(** ** The popularity cells *)

Lemma popularity_of_In (rows : list (Item.t * Rating.t)) (p : Popularity.t) :
  In p (popularity_of rows) ->
  1 <= Popularity.popularity p /\
  In (Popularity.item_id p) (map (fun row => Item.item_id (fst row)) rows).
Proof.
  unfold popularity_of. intros H. apply in_map_iff in H.
  destruct H as ([k c] & <- & Hin). simpl. split.
  - pose proof (groupby_size_positive (map (fun row => Item.item_id (fst row)) rows)) as Hp.
    rewrite Forall_forall in Hp. apply (Hp _ Hin).
  - apply groupby_size_keys. apply in_map_iff. exists (k, c). auto.
Qed.

Lemma popularity_of_key (rows : list (Item.t * Rating.t)) (k : nat) :
  In k (map (fun row => Item.item_id (fst row)) rows) ->
  exists p, In p (popularity_of rows) /\ Popularity.item_id p = k.
Proof.
  intros H. apply groupby_size_keys in H. apply in_map_iff in H.
  destruct H as ([k' c] & E & Hin). simpl in E. subst k'.
  exists {| Popularity.item_id := k; Popularity.popularity := c |}. split; [|reflexivity].
  unfold popularity_of. apply in_map_iff. exists (k, c). auto.
Qed.

Lemma rated_key (items0 : list Item.t) (raw_ratings : list Rating.t) (k : nat) :
  In k (map (fun row => Item.item_id (fst row)) (merge_items_ratings items0 raw_ratings))
  <-> exists it r, In it items0 /\ In r raw_ratings /\
                   Item.item_id it = k /\ Rating.item_id r = k.
Proof.
  unfold merge_items_ratings. rewrite in_map_iff. split.
  - intros ([it r] & E & Hin). simpl in E. apply merge_In in Hin.
    destruct Hin as (Hit & Hr & Hk). exists it, r. repeat split; congruence.
  - intros (it & r & Hit & Hr & E1 & E2). exists (it, r). split; [exact E1|].
    apply merge_In. repeat split; congruence.
Qed.

Lemma items_after_merge (items0 : list Item.t) (raw_ratings : list Rating.t)
    (p : Popularity.t) (it : Item.t) :
  In (p, it) (items (prepare items0 raw_ratings)) <->
  In it items0 /\
  In p (popularity_of (merge_items_ratings items0 raw_ratings)) /\
  Item.item_id it = Popularity.item_id p.
Proof.
  unfold prepare, merge_popularity_items. simpl. rewrite merge_In. tauto.
Qed.

(** C9: after [items = pd.merge(popularity, items)] the items table, and
    with it [indexed_items], holds exactly the items that have at least
    one rating: every row has a positive popularity and a rating that
    refers to it, every rated item is kept, and an item without any rating
    is gone, so that looking its row or its title up by label finds
    nothing. *)
Theorem items_only_rated (items0 : list Item.t) (raw_ratings : list Rating.t) :
  let env := prepare items0 raw_ratings in
  (forall row, In row (items env) ->
     In (snd row) items0 /\ 1 <= Popularity.popularity (fst row) /\
     exists r, In r raw_ratings /\ Rating.item_id r = Item.item_id (snd row)) /\
  (forall it, In it items0 ->
     (exists r, In r raw_ratings /\ Rating.item_id r = Item.item_id it) ->
     In it (map snd (items env))) /\
  (forall it, In it items0 ->
     (forall r, In r raw_ratings -> Rating.item_id r <> Item.item_id it) ->
     ~ In it (map snd (items env)) /\
     pd.loc (indexed_items env) (Item.item_id it) = Raise KeyError /\
     pd.loc (pd.column items_title (indexed_items env)) (Item.item_id it)
       = Raise KeyError).
Proof.
  intros env.
  assert (Hrow : forall p it, In (p, it) (items env) ->
            In it items0 /\ 1 <= Popularity.popularity p /\
            Popularity.item_id p = Item.item_id it /\
            exists r, In r raw_ratings /\ Rating.item_id r = Item.item_id it).
  { intros p it Hin. apply items_after_merge in Hin. destruct Hin as (Hit & Hp & Hk).
    apply popularity_of_In in Hp. destruct Hp as [Hpos Hkey].
    apply rated_key in Hkey. destruct Hkey as (it' & r & _ & Hr & _ & Er).
    repeat split; try assumption; [congruence|]. exists r. split; [assumption|congruence]. }
  split; [|split].
  - intros [p it] Hin. simpl. destruct (Hrow p it Hin) as (H1 & H2 & _ & H3). auto.
  - intros it Hit (r & Hr & Er).
    destruct (popularity_of_key (merge_items_ratings items0 raw_ratings) (Item.item_id it))
      as (p & Hp & Ep).
    { apply rated_key. exists it, r. auto. }
    apply in_map_iff. exists (p, it). split; [reflexivity|].
    apply items_after_merge. auto.
  - intros it Hit Hnone.
    assert (Hlabel : forall p it', In (p, it') (items env) ->
              Popularity.item_id p <> Item.item_id it).
    { intros p it' Hin E. destruct (Hrow p it' Hin) as (_ & _ & Ek & r & Hr & Er).
      apply (Hnone r Hr). congruence. }
    split; [|split].
    + intros Hin. apply in_map_iff in Hin. destruct Hin as ([p it'] & E & Hin).
      simpl in E. subst it'. destruct (Hrow p it Hin) as (_ & _ & _ & r & Hr & Er).
      now apply (Hnone r Hr).
    + apply loc_missing. intros [k row] Hin. simpl.
      unfold env, prepare, pd.set_index in Hin. simpl in Hin.
      apply in_map_iff in Hin. destruct Hin as ([p it'] & E & Hin).
      injection E as <- <-. now apply (Hlabel p it').
    + apply loc_missing. intros [k t] Hin. simpl.
      unfold env, prepare, pd.set_index, pd.column in Hin. simpl in Hin.
      rewrite map_map in Hin.
      apply in_map_iff in Hin. destruct Hin as ([p it'] & E & Hin).
      injection E as <- <-. now apply (Hlabel p it').
Qed.

Lemma items_only_rated_witness :
  pd.loc (indexed_items (prepare (movie 5 "Copycat" None :: sample_items) sample_ratings)) 5
  = Raise KeyError.
Proof.
  apply (proj2 (proj2
    (items_only_rated (movie 5 "Copycat" None :: sample_items) sample_ratings))
    (movie 5 "Copycat" None)).
  - simpl. auto.
  - simpl. intros r H. intuition (subst; discriminate).
Defined.

(** ** Release dates *)

Section DateFacts.
Variable parse : string -> option Timestamp.

Let converted := pd.converted parse.

Lemma to_datetime_ok (col : list (option string)) :
  (forall s, In (Some s) col -> parse s <> None) ->
  pd.to_datetime parse col = Ok (map converted col).
Proof.
  intros H. unfold pd.to_datetime. apply mapM_total.
  intros [s|] Hin; simpl; [|reflexivity].
  destruct (parse s) eqn:E; [reflexivity|]. now destruct (H s Hin).
Qed.

Lemma to_datetime_raises (col : list (option string)) (s : string) :
  In (Some s) col -> parse s = None ->
  pd.to_datetime parse col = Raise ValueError.
Proof.
  unfold pd.to_datetime. induction col as [|c t IH]; simpl; intros Hin Hs; [contradiction|].
  destruct c as [s'|]; simpl.
  - destruct (parse s') eqn:E; simpl; [|reflexivity].
    destruct Hin as [Hin|Hin]; [congruence|]. now rewrite IH.
  - destruct Hin as [Hin|Hin]; [discriminate|]. now rewrite IH.
Qed.

Lemma combine_map_self {A B : Type} (f : A -> B) (l : list A) :
  combine l (map f l) = map (fun x => (x, f x)) l.
Proof. induction l as [|x t IH]; simpl; [reflexivity|now rewrite IH]. Qed.

(** C8 (as amended): an item whose release date is missing keeps a
    missing date, gets no release year and stays in the table, provided
    every date that is present parses; a date that is present and does
    not parse makes the conversion raise, and the cell produces no
    table. *)
Theorem release_year_missing_or_raise (raw : list RawItem.t) :
  ((forall r s, In r raw -> RawItem.release_date r = Some s -> parse s <> None) ->
   exists items1,
     release_year_cell parse raw = Ok items1 /\
     map Item.item_id items1 = map RawItem.item_id raw /\
     forall i r, nth_error raw i = Some r -> RawItem.release_date r = None ->
       exists it, nth_error items1 i = Some it /\
                  Item.item_id it = RawItem.item_id r /\
                  Item.release_date it = None /\ Item.release_year it = None) /\
  ((exists r s, In r raw /\ RawItem.release_date r = Some s /\ parse s = None) ->
   release_year_cell parse raw = Raise ValueError).
Proof.
  split.
  - intros Hparse.
    exists (map (fun r => dated r (converted (RawItem.release_date r))) raw).
    unfold release_year_cell. rewrite to_datetime_ok.
    + simpl. rewrite map_map, combine_map_self, !map_map. simpl.
      split; [reflexivity|]. split; [reflexivity|].
      intros i r Hi Hd. exists (dated r (converted (RawItem.release_date r))).
      split; [rewrite nth_error_map, Hi; reflexivity|]. rewrite Hd. simpl. auto.
    + intros s Hin. apply in_map_iff in Hin. destruct Hin as (r & Er & Hr).
      now apply (Hparse r s).
  - intros (r & s & Hr & Hd & Hs). unfold release_year_cell.
    rewrite (to_datetime_raises _ s); [reflexivity| |assumption].
    rewrite <- Hd. now apply in_map.
Qed.
End DateFacts.

Lemma release_year_missing_or_raise_witness :
  let raw := [ raw_movie 1 "Toy Story" (Some "01-Jan-1995"%string);
               raw_movie 267 "unknown" None ] in
  exists items1,
    release_year_cell parse_dmy raw = Ok items1 /\
    map Item.item_id items1 = map RawItem.item_id raw /\
    forall i r, nth_error raw i = Some r -> RawItem.release_date r = None ->
      exists it, nth_error items1 i = Some it /\
                 Item.item_id it = RawItem.item_id r /\
                 Item.release_date it = None /\ Item.release_year it = None.
Proof.
  intros raw. apply (proj1 (release_year_missing_or_raise parse_dmy raw)).
  intros r s [<-|[<-|[]]] E; simpl in E; [|discriminate].
  injection E as <-. vm_compute. discriminate.
Defined.

(** C8 (as stated) fails: a release date that does not parse yields no
    null year, the conversion raises and no items table is produced. *)
Lemma release_year_unparsable_raises :
  parse_dmy "sometime in 1995" = None /\
  release_year_cell parse_dmy
    [ raw_movie 1 "Toy Story" (Some "01-Jan-1995"%string);
      raw_movie 2 "GoldenEye" (Some "sometime in 1995"%string) ]
  = Raise ValueError.
Proof. split; reflexivity. Qed.

(** ** Positional selection *)

Lemma take_ok {A : Type} (a : list A) (idxs : list nat) (d : A) :
  (forall i, In i idxs -> i < length a) ->
  np.take a idxs = Ok (map (fun i => nth i a d) idxs).
Proof.
  intros H. unfold np.take. apply mapM_total. intros i Hi.
  unfold np.getitem. rewrite (nth_error_nth' a d (H i Hi)). reflexivity.
Qed.

Lemma take_inv {A : Type} (a : list A) (idxs : list nat) (r : list A) (d : A) :
  np.take a idxs = Ok r ->
  (forall i, In i idxs -> i < length a) /\ r = map (fun i => nth i a d) idxs.
Proof.
  unfold np.take. revert r. induction idxs as [|i t IH]; simpl; intros r H.
  - injection H as <-. split; [contradiction|reflexivity].
  - unfold np.getitem at 1 in H.
    destruct (nth_error a i) as [x|] eqn:E; simpl in H; [|discriminate].
    destruct (mapM (np.getitem a) t) as [ys|] eqn:M; simpl in H; [|discriminate].
    injection H as <-. destruct (IH ys eq_refl) as [Hlt ->]. split.
    + intros j [<-|Hj]; [|now apply Hlt]. apply nth_error_Some. congruence.
    + f_equal. symmetry. now apply nth_error_nth.
Qed.

Lemma map_nth_seq {A : Type} (a : list A) (d : A) :
  map (fun i => nth i a d) (seq 0 (length a)) = a.
Proof.
  induction a as [|x t IH]; simpl; [reflexivity|].
  f_equal. rewrite <- seq_shift, map_map. exact IH.
Qed.

Lemma In_firstn {A : Type} (n : nat) (l : list A) (x : A) :
  In x (firstn n l) -> In x l.
Proof.
  intros H. rewrite <- (firstn_skipn n l). apply in_or_app. now left.
Qed.

Lemma In_skipn {A : Type} (n : nat) (l : list A) (x : A) :
  In x (skipn n l) -> In x l.
Proof.
  intros H. rewrite <- (firstn_skipn n l). apply in_or_app. now right.
Qed.

Lemma NoDup_app_disjoint {A : Type} (l1 l2 : list A) (x : A) :
  NoDup (l1 ++ l2) -> In x l1 -> In x l2 -> False.
Proof.
  induction l1 as [|y t IH]; simpl; intros Hnd H1 H2; [contradiction|].
  inversion Hnd as [|? ? Hnotin Hnd']; subst.
  destruct H1 as [->|H1].
  - apply Hnotin, in_or_app. now right.
  - now apply IH.
Qed.

(** ** [train_test_split] *)

Section SplitFacts.
Context {rng : Type}.
Variable RandomState : nat -> rng.
Variable permutation : rng -> nat -> list nat * rng.

(** The contract of the generator: a draw is an ordering of
    [0 .. n-1]. *)
Hypothesis permutation_spec :
  forall r n, Permutation (fst (permutation r n)) (seq 0 n).

Lemma draw_permutation_spec (random_state : option nat) (g : rng) (n : nat) :
  Permutation (fst (sk.draw_permutation RandomState permutation random_state g n))
              (seq 0 n).
Proof.
  destruct random_state as [seed|]; simpl; apply permutation_spec.
Qed.

(** What a successful split is made of. *)
Lemma split_inv {Row : Type} (rows : list Row) (f : Q) (random_state : option nat)
    (g : rng) (train test : list Row) :
  fst (sk.train_test_split RandomState permutation rows f random_state g)
    = Ok (train, test) ->
  exists ind_train ind_test,
    Permutation (ind_test ++ ind_train) (seq 0 (length rows)) /\
    np.take rows ind_train = Ok train /\
    np.take rows ind_test = Ok test /\
    length ind_test = sk.n_test_of f (length rows) /\
    sk.n_test_of f (length rows) < length rows.
Proof.
  unfold sk.train_test_split.
  destruct (sk.in_unit_interval f); simpl; [|discriminate].
  set (n := length rows). set (n_test := sk.n_test_of f n).
  destruct (Nat.eqb_spec (n - n_test) 0) as [E|E]; simpl; [discriminate|].
  pose proof (draw_permutation_spec random_state g n) as Hperm.
  destruct (sk.draw_permutation RandomState permutation random_state g n)
    as [perm g'] eqn:D. simpl in Hperm |- *.
  assert (Hlen : length perm = n).
  { rewrite (Permutation_length Hperm). apply length_seq. }
  assert (Htrain : firstn (n - n_test) (skipn n_test perm) = skipn n_test perm).
  { apply firstn_all2. rewrite length_skipn. lia. }
  rewrite Htrain.
  destruct (np.take rows (skipn n_test perm)) as [tr|] eqn:T1; simpl; [|discriminate].
  destruct (np.take rows (firstn n_test perm)) as [te|] eqn:T2; simpl; [|discriminate].
  intros H. injection H as <- <-.
  exists (skipn n_test perm), (firstn n_test perm).
  rewrite firstn_skipn. repeat split; try assumption; try lia.
  rewrite length_firstn. lia.
Qed.

Lemma split_total {Row : Type} (rows : list Row) (f : Q) (random_state : option nat)
    (g : rng) :
  (0 < f)%Q -> (f < 1)%Q -> sk.n_test_of f (length rows) < length rows ->
  exists train test,
    fst (sk.train_test_split RandomState permutation rows f random_state g)
    = Ok (train, test).
Proof.
  intros H0 H1 Hn. unfold sk.train_test_split, sk.in_unit_interval.
  destruct (Qlt_le_dec 0 f) as [_|Hc]; [|exfalso; apply (Qlt_not_le _ _ H0 Hc)].
  destruct (Qlt_le_dec f 1) as [_|Hc]; [|exfalso; apply (Qlt_not_le _ _ H1 Hc)].
  simpl.
  destruct (Nat.eqb_spec (length rows - sk.n_test_of f (length rows)) 0) as [E|E]; [lia|].
  pose proof (draw_permutation_spec random_state g (length rows)) as Hperm.
  destruct (sk.draw_permutation RandomState permutation random_state g (length rows))
    as [perm g'] eqn:D. simpl in Hperm |- *.
  destruct rows as [|d rows']; [simpl in Hn; lia|].
  assert (Hin : forall i, In i perm -> i < length (d :: rows')).
  { intros i Hi. apply (Permutation_in _ Hperm) in Hi. apply in_seq in Hi. lia. }
  rewrite (take_ok _ _ d), (take_ok _ _ d).
  - simpl. eauto.
  - intros i Hi. apply Hin. eapply In_firstn; eassumption.
  - intros i Hi. apply Hin. eapply In_skipn, In_firstn. eassumption.
Qed.

(** C4: with an integer seed the split does not depend on the state of
    the ambient generator and leaves it as it was, so that two calls
    with the same rows, fraction and seed, one after the other, give the
    same outcome; every outcome
    (train, test) selects disjoint sets of row positions that together
    cover all positions, hence train and test together are the input
    rows, and they share no row when the input rows are distinct.  For a
    fraction in (0, 1) that leaves at least one train row, there is an
    outcome. *)
Theorem split_deterministic_partition {Row : Type} (rows : list Row) (f : Q)
    (seed : nat) :
  (forall g1 g2,
     fst (sk.train_test_split RandomState permutation rows f (Some seed) g1)
     = fst (sk.train_test_split RandomState permutation rows f (Some seed) g2)) /\
  (forall g,
     let first_call := sk.train_test_split RandomState permutation rows f (Some seed) g in
     let second_call :=
       sk.train_test_split RandomState permutation rows f (Some seed) (snd first_call) in
     fst second_call = fst first_call) /\
  (forall g train test,
     fst (sk.train_test_split RandomState permutation rows f (Some seed) g)
       = Ok (train, test) ->
     Permutation (train ++ test) rows /\
     (forall x, In x rows <-> In x train \/ In x test) /\
     (NoDup rows -> forall x, ~ (In x train /\ In x test))) /\
  ((0 < f)%Q -> (f < 1)%Q -> sk.n_test_of f (length rows) < length rows ->
   forall g, exists train test,
     fst (sk.train_test_split RandomState permutation rows f (Some seed) g)
     = Ok (train, test)).
Proof.
  assert (Hdet : forall g1 g2,
            fst (sk.train_test_split RandomState permutation rows f (Some seed) g1)
            = fst (sk.train_test_split RandomState permutation rows f (Some seed) g2)).
  { intros g1 g2. unfold sk.train_test_split. simpl.
    destruct (sk.in_unit_interval f); simpl; [|reflexivity].
    destruct (length rows - sk.n_test_of f (length rows) =? 0); reflexivity. }
  split; [exact Hdet|]. split; [intros g; apply Hdet|]. split.
  - intros g train test H.
    destruct (split_inv _ _ _ _ _ _ H) as (itr & ite & Hperm & Ttr & Tte & _ & Hn).
    destruct rows as [|d rows']; [simpl in Hn; lia|].
    destruct (take_inv _ _ _ d Ttr) as [_ ->].
    destruct (take_inv _ _ _ d Tte) as [_ ->].
    assert (P : Permutation
              (map (fun i => nth i (d :: rows') d) itr ++
               map (fun i => nth i (d :: rows') d) ite) (d :: rows')).
    { rewrite <- map_app.
      assert (Q : Permutation (itr ++ ite) (seq 0 (length (d :: rows'))))
        by (eapply Permutation_trans; [apply Permutation_app_comm|exact Hperm]).
      apply (Permutation_map (fun i => nth i (d :: rows') d)) in Q.
      now rewrite map_nth_seq in Q. }
    split; [exact P|]. split.
    + intros x. rewrite <- in_app_iff. split; intros Hx.
      * apply (Permutation_in _ (Permutation_sym P)); assumption.
      * apply (Permutation_in _ P); assumption.
    + intros Hnd x [Hx1 Hx2].
      apply (Permutation_NoDup (Permutation_sym P)) in Hnd.
      now apply (NoDup_app_disjoint _ _ x Hnd).
  - intros H0 H1 Hn g. now apply split_total.
Qed.
End SplitFacts.

Lemma toy_permutation_spec (r n : nat) :
  Permutation (fst (toy_permutation r n)) (seq 0 n).
Proof.
  unfold toy_permutation. simpl.
  eapply Permutation_trans; [apply Permutation_app_comm|].
  rewrite firstn_skipn. apply Permutation_refl.
Qed.

Lemma split_deterministic_partition_witness :
  exists train test,
    fst (split_cell toy_RandomState toy_permutation sample_env 7) = Ok (train, test) /\
    Permutation (train ++ test) (all_ratings sample_env) /\
    forall x, ~ (In x train /\ In x test).
Proof.
  pose proof (split_deterministic_partition toy_RandomState toy_permutation
                toy_permutation_spec (all_ratings sample_env) (2 # 10) 0)
    as (_ & _ & P & T).
  assert (H0 : (0 < 2 # 10)%Q) by reflexivity.
  assert (H1 : (2 # 10 < 1)%Q) by reflexivity.
  assert (Hn : sk.n_test_of (2 # 10) (length (all_ratings sample_env))
               < length (all_ratings sample_env))
    by (vm_compute; lia).
  destruct (T H0 H1 Hn 7) as (train & test & E).
  exists train, test. destruct (P 7 train test E) as (Pm & _ & Hd).
  split; [exact E|]. split; [exact Pm|]. apply Hd.
  vm_compute. repeat constructor; simpl; intuition discriminate.
Defined.

(** ** Order of the ranking *)

Section StableRanking.
Context {A : Type}.
Variable leb : A -> A -> bool.
Hypothesis leb_total : forall x y, leb x y = true \/ leb y x = true.
Hypothesis leb_trans : forall x y z, leb x y = true -> leb y z = true -> leb x z = true.

(** Ascending keys and, among equal keys, ascending positions. *)
Let lex (p q : nat * A) : Prop :=
  leb (snd p) (snd q) = true /\ (leb (snd q) (snd p) = true -> fst p < fst q).

Lemma insert_lex (x : nat * A) (l : list (nat * A)) :
  StronglySorted lex l -> Forall (fun z => fst x < fst z) l ->
  StronglySorted lex (np.insert leb x l).
Proof.
  induction 1 as [|y t Hs IH Hy]; simpl; intros Hx.
  - repeat constructor.
  - inversion Hx as [|? ? Hxy Hxt]; subst.
    destruct (leb (snd x) (snd y)) eqn:E.
    + constructor; [now constructor|].
      constructor; [split; [exact E|intros _; exact Hxy]|].
      rewrite Forall_forall in Hy, Hxt |- *. intros z Hz. split.
      * eapply leb_trans; [exact E|]. apply (Hy z Hz).
      * intros _. now apply Hxt.
    + constructor; [now apply IH|].
      rewrite Forall_forall in Hy |- *. intros z Hz.
      apply (Permutation_in _ (insert_perm leb x t)) in Hz.
      destruct Hz as [<-|Hz]; [|now apply Hy].
      split; [|congruence].
      destruct (leb_total (snd x) (snd y)) as [H|H]; [congruence|exact H].
Qed.

Lemma sort_pairs_lex (l : list (nat * A)) :
  StronglySorted (fun p q => fst p < fst q) l ->
  StronglySorted lex (np.sort_pairs leb l).
Proof.
  induction 1 as [|x t Hs IH Hx]; simpl; [constructor|].
  apply insert_lex; [exact IH|].
  rewrite Forall_forall in Hx |- *. intros z Hz.
  apply Hx. apply (Permutation_in _ (sort_pairs_perm leb t)). exact Hz.
Qed.

Lemma enumerate_ascending (a : list A) :
  StronglySorted (fun p q => fst p < fst q) (np.enumerate a).
Proof.
  unfold np.enumerate. generalize 0.
  induction a as [|x t IH]; intros s; simpl; [constructor|].
  constructor; [apply IH|].
  apply Forall_forall. intros [j v] Hin. apply in_combine_l in Hin.
  apply in_seq in Hin. simpl. lia.
Qed.

Lemma argsort_lex (a : list A) :
  StronglySorted lex (np.sort_pairs leb (np.enumerate a)).
Proof. apply sort_pairs_lex, enumerate_ascending. Qed.
End StableRanking.

Lemma StronglySorted_snoc {A : Type} (Rel : A -> A -> Prop) (l : list A) (x : A) :
  StronglySorted Rel l -> Forall (fun y => Rel y x) l -> StronglySorted Rel (l ++ [x]).
Proof.
  induction 1 as [|y t Hs IH Hy]; simpl; intros Hx.
  - repeat constructor.
  - inversion Hx as [|? ? Hyx Htx]; subst. constructor; [now apply IH|].
    apply Forall_app. split; [assumption|now constructor].
Qed.

Lemma StronglySorted_rev {A : Type} (Rel : A -> A -> Prop) (l : list A) :
  StronglySorted Rel l -> StronglySorted (fun a b => Rel b a) (rev l).
Proof.
  induction 1 as [|x t Hs IH Hx]; simpl; [constructor|].
  apply StronglySorted_snoc; [exact IH|].
  apply Forall_forall. intros y Hy. apply in_rev in Hy.
  rewrite Forall_forall in Hx. now apply Hx.
Qed.

Lemma StronglySorted_firstn {A : Type} (Rel : A -> A -> Prop) (n : nat) (l : list A) :
  StronglySorted Rel l -> StronglySorted Rel (firstn n l).
Proof.
  intros H. revert n. induction H as [|x t Hs IH Hx]; intros [|n]; simpl; try constructor.
  - apply IH.
  - apply Forall_forall. intros y Hy. apply In_firstn in Hy.
    rewrite Forall_forall in Hx. now apply Hx.
Qed.

Lemma StronglySorted_weaken {A : Type} (P Q : A -> A -> Prop) (l : list A) :
  (forall a b, P a b -> Q a b) -> StronglySorted P l -> StronglySorted Q l.
Proof.
  intros HPQ. induction 1 as [|x t Hs IH Hx]; constructor; [assumption|].
  rewrite Forall_forall in Hx |- *. auto.
Qed.

(** ** The ranking of [most_similar] *)

Lemma StronglySorted_map {A B : Type} (Rel : B -> B -> Prop) (f : A -> B) (l : list A) :
  StronglySorted Rel (map f l) -> StronglySorted (fun a b => Rel (f a) (f b)) l.
Proof.
  induction l as [|x t IH]; simpl; intros H; [constructor|].
  inversion H as [|? ? Hs Hx]; subst. constructor; [now apply IH|].
  rewrite Forall_forall in Hx |- *. intros y Hy. apply Hx. now apply in_map.
Qed.

Lemma StronglySorted_map_intro {A B : Type} (Rel : B -> B -> Prop) (f : A -> B)
    (l : list A) :
  StronglySorted (fun a b => Rel (f a) (f b)) l -> StronglySorted Rel (map f l).
Proof.
  induction 1 as [|x t Hs IH Hx]; simpl; constructor; [assumption|].
  rewrite Forall_forall in Hx |- *. intros y Hy. apply in_map_iff in Hy.
  destruct Hy as (z & <- & Hz). now apply Hx.
Qed.

Lemma StronglySorted_weaken_In {A : Type} (P Q : A -> A -> Prop) (l : list A) :
  StronglySorted P l ->
  (forall a b, In a l -> In b l -> P a b -> Q a b) -> StronglySorted Q l.
Proof.
  induction 1 as [|x t Hs IH Hx]; intros HPQ; constructor.
  - apply IH. intros a b Ha Hb. apply HPQ; now right.
  - rewrite Forall_forall in Hx |- *. intros y Hy.
    apply HPQ; [now left|now right|now apply Hx].
Qed.

(** The order-preserving kernel lists every position once, by ascending
    value: it is one of the kernels numpy may use. *)
Lemma stable_kernel_contract : argsort_contract stable_kernel.
Proof.
  intros a. split; [apply stable_argsort_perm|].
  unfold stable_kernel, np.stable_argsort.
  apply StronglySorted_map_intro.
  pose proof (argsort_lex Rleb Rleb_total Rleb_trans a) as H.
  apply (StronglySorted_weaken_In _ _ _ H).
  intros [i x] [j y] Hi Hj [Hle _]. simpl in Hle. apply Rleb_true_iff in Hle.
  apply (Permutation_in _ (sort_pairs_perm Rleb _)) in Hi, Hj.
  apply enumerate_nth in Hi, Hj.
  unfold ascending_by. simpl.
  rewrite (nth_error_nth _ _ 0%R Hi), (nth_error_nth _ _ 0%R Hj). exact Hle.
Qed.

Lemma ranked_fst (argsort : argsort_kernel) (sims : list R) :
  map fst (ranked argsort sims) = np.reversed (argsort sims).
Proof. unfold ranked. rewrite map_map. simpl. apply map_id. Qed.

Section RankedFacts.
Variable argsort : argsort_kernel.
Hypothesis argsort_ok : argsort_contract argsort.

(** [argsort] lists the positions of its argument, and nothing else. *)
Lemma argsort_In (sims : list R) (j : nat) : In j (argsort sims) <-> j < length sims.
Proof.
  destruct (argsort_ok sims) as [P _]. split; intros H.
  - apply (Permutation_in _ P) in H. apply in_seq in H. lia.
  - apply (Permutation_in _ (Permutation_sym P)). apply in_seq. lia.
Qed.

Lemma ranked_fst_perm (sims : list R) :
  Permutation (map fst (ranked argsort sims)) (seq 0 (length sims)).
Proof.
  rewrite ranked_fst. eapply Permutation_trans;
    [apply Permutation_sym, Permutation_rev|apply argsort_ok].
Qed.

Lemma ranked_In (sims : list R) (j : nat) (v : R) :
  In (j, v) (ranked argsort sims) <-> nth_error sims j = Some v.
Proof.
  unfold ranked, np.reversed. rewrite in_map_iff. split.
  - intros (k & E & Hk). injection E as -> <-.
    apply in_rev, argsort_In in Hk. now apply nth_error_nth'.
  - intros H. exists j. split.
    + f_equal. now apply nth_error_nth.
    + apply -> in_rev. apply argsort_In. apply nth_error_Some. congruence.
Qed.

Lemma ranked_length (sims : list R) : length (ranked argsort sims) = length sims.
Proof.
  rewrite <- (length_map fst), (Permutation_length (ranked_fst_perm sims)).
  apply length_seq.
Qed.

(** The ranking goes by descending similarity. *)
Lemma ranked_sorted (sims : list R) : StronglySorted not_below (ranked argsort sims).
Proof.
  unfold ranked, np.reversed. apply StronglySorted_map_intro.
  destruct (argsort_ok sims) as [_ S]. apply StronglySorted_rev in S.
  eapply StronglySorted_weaken; [|exact S]. intros a b H. exact H.
Qed.
End RankedFacts.

Lemma mapM_exists {A B : Type} (f : A -> result B) (l : list A) :
  (forall x, In x l -> exists y, f x = Ok y) -> exists r, mapM f l = Ok r.
Proof.
  induction l as [|x t IH]; simpl; intros H; [eauto|].
  destruct (H x (or_introl eq_refl)) as [y ->].
  destruct IH as [ys ->]; [intros; apply H; now right|]. simpl. eauto.
Qed.

Lemma mapM_In {A B : Type} (f : A -> result B) (l : list A) (r : list B) :
  mapM f l = Ok r -> forall x, In x l -> exists y, f x = Ok y.
Proof.
  revert r. induction l as [|x t IH]; simpl; intros r H z Hz; [contradiction|].
  destruct (f x) as [y|e] eqn:E; simpl in H; [|discriminate].
  destruct (mapM f t) as [ys|e] eqn:M; simpl in H; [|discriminate].
  destruct Hz as [<-|Hz]; [eauto|]. now apply (IH ys).
Qed.

Lemma mapM_combine {A B : Type} (f : A -> result B) (l : list A) (r : list B)
    (x : A) (y : B) :
  mapM f l = Ok r -> In (x, y) (combine l r) -> f x = Ok y.
Proof.
  revert r. induction l as [|a t IH]; simpl; intros r H Hin; [contradiction|].
  destruct (f a) as [b|e] eqn:E; simpl in H; [|discriminate].
  destruct (mapM f t) as [bs|e] eqn:M; simpl in H; [|discriminate].
  injection H as <-. simpl in Hin. destruct Hin as [Hin|Hin].
  - injection Hin as <- <-. exact E.
  - now apply (IH bs).
Qed.

(** *** Selecting titles by label *)

Lemma loc_all_ok {V : Type} (s : list (nat * V)) (label : nat) (vs : list V) :
  pd.loc_all s label = Ok vs ->
  In label (map fst s) /\ 1 <= length vs /\ forall v, In v vs -> In (label, v) s.
Proof.
  unfold pd.loc_all.
  destruct (filter (fun p => fst p =? label) s) as [|p t] eqn:F; [discriminate|].
  intros H. injection H as <-.
  assert (Hin : forall q, In q (p :: t) -> In q s /\ fst q = label).
  { intros q Hq. rewrite <- F in Hq. apply filter_In in Hq.
    destruct Hq as [Hq E]. apply Nat.eqb_eq in E. auto. }
  split; [|split].
  - destruct (Hin p (or_introl eq_refl)) as [Hp <-]. now apply in_map.
  - simpl. lia.
  - intros v Hv. change (In v (map snd (p :: t))) in Hv.
    apply in_map_iff in Hv. destruct Hv as ([k w] & E & Hq).
    simpl in E. subst w. destruct (Hin _ Hq) as [Hs Ek]. simpl in Ek. now subst k.
Qed.

Lemma loc_all_present {V : Type} (s : list (nat * V)) (label : nat) :
  In label (map fst s) -> exists vs, pd.loc_all s label = Ok vs.
Proof.
  intros H. unfold pd.loc_all. apply in_map_iff in H. destruct H as (p & E & Hp).
  assert (Hf : In p (filter (fun q => fst q =? label) s)).
  { apply filter_In. split; [exact Hp|]. now apply Nat.eqb_eq. }
  destruct (filter (fun q => fst q =? label) s) as [|q t]; [contradiction|]. eauto.
Qed.

Lemma loc_all_raises {V : Type} (s : list (nat * V)) (label : nat) (e : exn) :
  pd.loc_all s label = Raise e -> e = KeyError.
Proof.
  unfold pd.loc_all.
  destruct (filter (fun p => fst p =? label) s); [congruence|discriminate].
Qed.

Lemma loc_all_missing {V : Type} (s : list (nat * V)) (label : nat) :
  ~ In label (map fst s) -> pd.loc_all s label = Raise KeyError.
Proof.
  intros H. destruct (pd.loc_all s label) as [vs|e] eqn:E.
  - apply loc_all_ok in E. tauto.
  - apply loc_all_raises in E. now subst.
Qed.

Lemma getitem_labels_error {V : Type} (s : list (nat * V)) (labels : list nat) (j : nat) :
  In j labels -> ~ In j (map fst s) -> pd.getitem_labels s labels = Raise KeyError.
Proof.
  intros Hin Hj. unfold pd.getitem_labels.
  assert (M : mapM (pd.loc_all s) labels = Raise KeyError).
  { induction labels as [|k t IH]; simpl; [contradiction|].
    destruct (pd.loc_all s k) as [vs|e] eqn:E; simpl.
    - destruct Hin as [->|Hin]; [|now rewrite IH].
      rewrite loc_all_missing in E by assumption. discriminate.
    - apply loc_all_raises in E. now subst. }
  now rewrite M.
Qed.

Lemma getitem_labels_ok {V : Type} (s : list (nat * V)) (labels : list nat)
    (ts : list V) :
  pd.getitem_labels s labels = Ok ts ->
  length labels <= length ts /\ forall j, In j labels -> In j (map fst s).
Proof.
  unfold pd.getitem_labels.
  destruct (mapM (pd.loc_all s) labels) as [rows|e] eqn:M; simpl; [|discriminate].
  intros H. injection H as <-. split.
  - revert rows M. induction labels as [|k t IH]; simpl; intros rows M; [lia|].
    destruct (pd.loc_all s k) as [vs|] eqn:E; simpl in M; [|discriminate].
    destruct (mapM (pd.loc_all s) t) as [rs|] eqn:M'; simpl in M; [|discriminate].
    injection M as <-. simpl. rewrite length_app.
    apply loc_all_ok in E. specialize (IH rs eq_refl). lia.
  - intros j Hj. destruct (mapM_In _ _ _ M j Hj) as [vs Hvs].
    now apply loc_all_ok in Hvs.
Qed.

Lemma getitem_labels_returns {V : Type} (s : list (nat * V)) (labels : list nat) :
  (forall j, In j labels -> In j (map fst s)) ->
  exists ts, pd.getitem_labels s labels = Ok ts.
Proof.
  intros H. unfold pd.getitem_labels.
  destruct (mapM_exists (pd.loc_all s) labels) as [rows ->]; [|simpl; eauto].
  intros j Hj. now apply loc_all_present, H.
Qed.

Lemma take_pairs (sims : list R) (l : list (nat * R)) :
  (forall p, In p l -> nth_error sims (fst p) = Some (snd p)) ->
  np.take sims (map fst l) = Ok (map snd l).
Proof.
  unfold np.take. induction l as [|[j v] t IH]; simpl; intros H; [reflexivity|].
  pose proof (H (j, v) (or_introl eq_refl)) as Hj. simpl in Hj.
  unfold np.getitem at 1. rewrite Hj. simpl.
  rewrite IH by (intros; apply H; now right). reflexivity.
Qed.

(** [zip] stops at the end of its shortest argument. *)
Lemma entries_keys (l : list (nat * R)) (ts : list string) :
  length l <= length ts ->
  map entry_key (combine (combine (map fst l) ts) (map snd l)) = l.
Proof.
  revert ts. induction l as [|[j v] t IH]; intros [|x ts]; simpl; intros H;
    try reflexivity; try lia.
  unfold entry_key at 1. simpl. f_equal. apply IH. lia.
Qed.

Lemma combine3_In {A B C : Type} (l1 : list A) (l2 : list B) (l3 : list C)
    (a : A) (b : B) (c : C) :
  In (a, b, c) (combine (combine l1 l2) l3) -> In (a, c) (combine l1 l3).
Proof.
  revert l2 l3. induction l1 as [|x t IH]; intros [|y l2] [|z l3]; simpl;
    try contradiction.
  intros [H|H]; [left; congruence|right; eapply IH; eassumption].
Qed.

(** What a returned list tells, whatever the kernel: the query row
    exists, and every entry holds a labelled index and the similarity
    computed for the row at that index. *)
Lemma most_similar_ok_inv (argsort : argsort_kernel) (item_id : nat) (M : matrix)
    (titles : list (nat * string)) (top_n : nat) (res : list (nat * string * R)) :
  most_similar argsort item_id M titles top_n = Ok res ->
  exists target,
    nth_error (mrows M) item_id = Some target /\
    length target = ncols M /\ 0 < ncols M /\
    forall e, In e res ->
      In (entry_id e) (map fst titles) /\
      nth_error (similarities target M) (entry_id e) = Some (entry_sim e).
Proof.
  unfold most_similar, np.getitem.
  destruct (nth_error (mrows M) item_id) as [target|]; simpl; [|discriminate].
  unfold sk.cosine_similarity, sk.check_pairwise_arrays. simpl.
  destruct (length (mrows M) =? 0); simpl; [discriminate|].
  destruct (Nat.eqb_spec (length target) 0) as [E|E]; simpl; [discriminate|].
  destruct (ncols M =? 0); simpl; [discriminate|].
  destruct (Nat.eqb_spec (length target) (ncols M)) as [E'|E']; simpl; [|discriminate].
  rewrite app_nil_r. fold (similarities target M).
  destruct (pd.getitem_labels titles
              (np.head_slice top_n (np.reversed (argsort (similarities target M)))))
    as [ts|] eqn:G; simpl; [|discriminate].
  destruct (np.take (similarities target M)
              (np.head_slice top_n (np.reversed (argsort (similarities target M)))))
    as [ss|] eqn:T; simpl; [|discriminate].
  intros H. injection H as <-. exists target.
  split; [reflexivity|]. split; [exact E'|]. split; [lia|].
  intros [[i t] s] He. unfold entry_id, entry_sim. simpl. split.
  - apply in_combine_l, in_combine_l in He.
    now apply (proj2 (getitem_labels_ok _ _ _ G)).
  - apply combine3_In in He. unfold np.take in T.
    pose proof (mapM_combine _ _ _ _ _ T He) as Hg. unfold np.getitem in Hg.
    destruct (nth_error (similarities target M) i); congruence.
Qed.

Section MostSimilarFacts.
Variable argsort : argsort_kernel.
Hypothesis argsort_ok : argsort_contract argsort.
Variables (item_id : nat) (M : matrix) (titles : list (nat * string)) (top_n : nat).
Variable target : vec.
Hypothesis Htarget : nth_error (mrows M) item_id = Some target.
Hypothesis Hdim : length target = ncols M.
Hypothesis Hcols : 0 < ncols M.

Let top := firstn top_n (ranked argsort (similarities target M)).

(** [most_similar] in terms of its ranking. *)
Lemma most_similar_unfold :
  most_similar argsort item_id M titles top_n =
  (ts <- pd.getitem_labels titles (map fst top) ;;
   Ok (combine (combine (map fst top) ts) (map snd top))).
Proof.
  unfold most_similar, np.getitem. rewrite Htarget. simpl.
  unfold sk.cosine_similarity, sk.check_pairwise_arrays. simpl.
  assert (Hrows : length (mrows M) <> 0).
  { intros E. apply length_zero_iff_nil in E. rewrite E in Htarget.
    destruct item_id; discriminate. }
  rewrite Hdim.
  destruct (Nat.eqb_spec (length (mrows M)) 0) as [E|_]; [contradiction|].
  destruct (Nat.eqb_spec (ncols M) 0) as [E|_]; [lia|]. simpl.
  rewrite Nat.eqb_refl. simpl. rewrite app_nil_r.
  fold (similarities target M).
  unfold np.head_slice. rewrite <- (ranked_fst argsort), firstn_map. fold top.
  destruct (pd.getitem_labels titles (map fst top)) as [ts|e]; simpl; [|reflexivity].
  rewrite take_pairs; [reflexivity|].
  intros [j v] Hp. apply In_firstn in Hp. now apply (ranked_In argsort argsort_ok).
Qed.

Lemma most_similar_inv (res : list (nat * string * R)) :
  most_similar argsort item_id M titles top_n = Ok res ->
  map entry_key res = top /\
  forall j, In j (map fst top) -> In j (map fst titles).
Proof.
  rewrite most_similar_unfold.
  destruct (pd.getitem_labels titles (map fst top)) as [ts|e] eqn:G; simpl; [|discriminate].
  intros H. injection H as <-. apply getitem_labels_ok in G. destruct G as [Hlen Hlab].
  split; [|exact Hlab].
  apply entries_keys. now rewrite length_map in Hlen.
Qed.

Lemma most_similar_returns :
  (forall j, In j (map fst top) -> In j (map fst titles)) ->
  exists res, most_similar argsort item_id M titles top_n = Ok res.
Proof.
  intros H. rewrite most_similar_unfold.
  destruct (getitem_labels_returns titles (map fst top) H) as [ts ->]. simpl. eauto.
Qed.

Lemma most_similar_keyerror (j : nat) :
  In j (map fst top) -> ~ In j (map fst titles) ->
  most_similar argsort item_id M titles top_n = Raise KeyError.
Proof.
  intros Hj Hn. rewrite most_similar_unfold.
  now rewrite (getitem_labels_error titles (map fst top) j Hj Hn).
Qed.

Lemma top_index_bound (j : nat) : In j (map fst top) -> j < length (mrows M).
Proof.
  intros H. apply in_map_iff in H. destruct H as ([j' v] & E & Hp).
  simpl in E. subst j'. apply In_firstn, (ranked_In argsort argsort_ok) in Hp.
  assert (j < length (similarities target M)) by (apply nth_error_Some; congruence).
  unfold similarities in *. now rewrite length_map in *.
Qed.

Lemma top_length : length top = Nat.min top_n (length (mrows M)).
Proof.
  unfold top. rewrite length_firstn, (ranked_length argsort argsort_ok).
  unfold similarities. now rewrite length_map.
Qed.

End MostSimilarFacts.

(** When [top_n] covers the table, every row is selected. *)
Lemma top_all (argsort : argsort_kernel) (M : matrix) (top_n : nat) (target : vec)
    (j : nat) :
  argsort_contract argsort ->
  length (mrows M) <= top_n -> j < length (mrows M) ->
  In j (map fst (firstn top_n (ranked argsort (similarities target M)))).
Proof.
  intros Hk Hn Hj. rewrite firstn_all2.
  - apply (Permutation_in _ (Permutation_sym (ranked_fst_perm argsort Hk _))).
    apply in_seq. unfold similarities. rewrite length_map. lia.
  - rewrite (ranked_length argsort Hk). unfold similarities.
    now rewrite length_map.
Qed.

(** ** Evaluating similarities on sample rows *)

Section Evaluation.
Local Open Scope R_scope.

Lemma row_scale_of_square (a : vec) (s : R) :
  1 <= s -> dot a a = s * s -> sk.row_scale a = s.
Proof.
  intros Hs E. assert (N : l2_norm a = s).
  { unfold l2_norm. rewrite E. apply sqrt_square. lra. }
  unfold sk.row_scale. rewrite N.
  destruct (Rlt_dec s (10 * sk.eps)) as [H|H]; [|reflexivity].
  unfold sk.eps in H. lra.
Qed.

Lemma similarity_value (a b : vec) (s t c : R) :
  1 <= s -> 1 <= t -> dot a a = s * s -> dot b b = t * t -> dot a b = c * (s * t) ->
  dot (sk.normalize_row a) (sk.normalize_row b) = c.
Proof.
  intros Hs Ht Ea Eb Eab.
  rewrite dot_normalize, (row_scale_of_square a s Hs Ea),
    (row_scale_of_square b t Ht Eb), Eab.
  field. split; lra.
Qed.

Lemma similarities_sample :
  similarities [1; 0] sample_embeddings = [0; 1; 1].
Proof.
  unfold similarities, sample_embeddings. cbn [mrows map].
  rewrite (similarity_value [1; 0] [0; 1] 1 1 0),
          (similarity_value [1; 0] [1; 0] 1 1 1),
          (similarity_value [1; 0] [2; 0] 1 2 1);
    simpl; try lra.
  reflexivity.
Qed.

Lemma similarities_zero_row :
  similarities [0; 0] zero_row_embeddings = [0; 0; 0].
Proof.
  unfold similarities, zero_row_embeddings. cbn [mrows map].
  assert (Z : zero_vector [0; 0]) by (repeat constructor).
  now rewrite !(dot_normalize_zero_l _ _ Z).
Qed.

Lemma ranked_sample :
  ranked stable_kernel [0; 1; 1] = [(2%nat, 1); (1%nat, 1); (0%nat, 0)].
Proof.
  unfold ranked, stable_kernel, np.stable_argsort, np.sort_pairs, np.enumerate.
  simpl. eval_Rleb. reflexivity.
Qed.

Lemma ranked_zero_row :
  ranked stable_kernel [0; 0; 0] = [(2%nat, 0); (1%nat, 0); (0%nat, 0)].
Proof.
  unfold ranked, stable_kernel, np.stable_argsort, np.sort_pairs, np.enumerate.
  simpl. eval_Rleb. reflexivity.
Qed.
End Evaluation.

Lemma well_shaped_row (M : matrix) (i : nat) (v : vec) :
  well_shaped M -> nth_error (mrows M) i = Some v -> length v = ncols M.
Proof.
  intros Hw Hv. unfold well_shaped in Hw. rewrite Forall_forall in Hw.
  apply Hw. eapply nth_error_In; eassumption.
Qed.

Lemma sample_embeddings_shaped : well_shaped sample_embeddings.
Proof. unfold well_shaped. simpl. repeat constructor. Qed.

Lemma zero_row_embeddings_shaped : well_shaped zero_row_embeddings.
Proof. unfold well_shaped. simpl. repeat constructor. Qed.

(** ** [most_similar] *)

(** C3 (as amended): when every selected row index has a title,
    [most_similar] returns min(top_n, number of rows) entries, each
    holding a row index and the similarity computed for that row, in
    non-increasing order of similarity.  Nothing orders entries of equal
    similarity: they come as the sorting kernel of [argsort] leaves them.
    When a selected index has no title the call raises [KeyError]. *)
Theorem most_similar_length_and_order (argsort : argsort_kernel) (item_id : nat)
    (M : matrix) (titles : list (nat * string)) (top_n : nat) (target : vec) :
  argsort_contract argsort ->
  well_shaped M -> 0 < ncols M ->
  nth_error (mrows M) item_id = Some target ->
  ((forall j, In j (map fst (firstn top_n (ranked argsort (similarities target M)))) ->
              In j (map fst titles)) ->
   exists res,
     most_similar argsort item_id M titles top_n = Ok res /\
     length res = Nat.min top_n (length (mrows M)) /\
     StronglySorted (fun e1 e2 => (entry_sim e2 <= entry_sim e1)%R) res /\
     (forall e, In e res ->
        nth_error (similarities target M) (entry_id e) = Some (entry_sim e))) /\
  ((exists j, In j (map fst (firstn top_n (ranked argsort (similarities target M)))) /\
              ~ In j (map fst titles)) ->
   most_similar argsort item_id M titles top_n = Raise KeyError).
Proof.
  intros Hk Hw Hcols Htarget.
  pose proof (well_shaped_row M item_id target Hw Htarget) as Hdim.
  split.
  - intros Htitles.
    destruct (most_similar_returns argsort Hk item_id M titles top_n target
                Htarget Hdim Hcols Htitles) as [res Hres].
    destruct (most_similar_inv argsort Hk item_id M titles top_n target
                Htarget Hdim Hcols res Hres) as [Hkeys _].
    exists res. split; [exact Hres|]. split; [|split].
    + rewrite <- (length_map entry_key), Hkeys. apply (top_length argsort Hk).
    + apply (StronglySorted_map not_below entry_key). rewrite Hkeys.
      apply StronglySorted_firstn, (ranked_sorted argsort Hk).
    + intros e He.
      destruct (most_similar_ok_inv _ _ _ _ _ _ Hres) as (target' & Ht' & _ & _ & Hall).
      assert (target' = target) by congruence. subst target'.
      now apply Hall.
  - intros (j & Hj & Hn).
    now apply (most_similar_keyerror argsort Hk item_id M titles top_n target
                 Htarget Hdim Hcols j).
Qed.

Lemma most_similar_sample :
  most_similar stable_kernel 1 sample_embeddings sample_titles 2
  = Ok [ (2, "GoldenEye"%string, 1%R); (1, "Toy Story"%string, 1%R) ].
Proof.
  rewrite (most_similar_unfold stable_kernel stable_kernel_contract
             1 sample_embeddings sample_titles 2 [1; 0]%R);
    [|reflexivity|reflexivity|simpl; lia].
  rewrite similarities_sample, ranked_sample. reflexivity.
Qed.

Lemma most_similar_length_and_order_witness :
  exists res,
    most_similar stable_kernel 1 sample_embeddings sample_titles 2 = Ok res /\
    length res = Nat.min 2 (length (mrows sample_embeddings)) /\
    StronglySorted (fun e1 e2 => (entry_sim e2 <= entry_sim e1)%R) res /\
    (forall e, In e res ->
       nth_error (similarities [1; 0]%R sample_embeddings) (entry_id e)
       = Some (entry_sim e)).
Proof.
  apply (most_similar_length_and_order stable_kernel 1 sample_embeddings sample_titles 2
           [1; 0]%R).
  - exact stable_kernel_contract.
  - exact sample_embeddings_shaped.
  - simpl. lia.
  - reflexivity.
  - rewrite similarities_sample, ranked_sample. simpl. intuition.
Defined.

(** C3 (as stated) fails.  With [top_n = 5] and a table of three rows,
    whatever the kernel, nothing is returned when row 0 has no title, and
    three entries, not five, when it has one.  And with the
    order-preserving kernel, which is one numpy may use, items 1 and 2,
    which have the same similarity to item 1, come with item 2 first. *)
Lemma most_similar_not_top_n_ascending :
  (forall argsort, argsort_contract argsort ->
     most_similar argsort 1 sample_embeddings sample_titles 5 = Raise KeyError) /\
  (forall argsort, argsort_contract argsort ->
     exists res, most_similar argsort 1 sample_embeddings titles_with_row0 5 = Ok res /\
                 length res = 3) /\
  argsort_contract stable_kernel /\
  most_similar stable_kernel 1 sample_embeddings sample_titles 2
    = Ok [ (2, "GoldenEye"%string, 1%R); (1, "Toy Story"%string, 1%R) ].
Proof.
  split; [|split; [|split; [exact stable_kernel_contract|exact most_similar_sample]]].
  - intros argsort Hk.
    apply (most_similar_keyerror argsort Hk 1 sample_embeddings sample_titles 5 [1; 0]%R
             eq_refl eq_refl (Nat.lt_0_succ 1) 0).
    + apply top_all; [exact Hk|simpl; lia|simpl; lia].
    + simpl. intuition discriminate.
  - intros argsort Hk.
    destruct (most_similar_returns argsort Hk 1 sample_embeddings titles_with_row0 5
                [1; 0]%R eq_refl eq_refl (Nat.lt_0_succ 1)) as [res Hres].
    { intros j Hj. apply (top_index_bound argsort Hk) in Hj. simpl in Hj |- *. lia. }
    exists res. split; [exact Hres|].
    destruct (most_similar_inv argsort Hk 1 sample_embeddings titles_with_row0 5
                [1; 0]%R eq_refl eq_refl (Nat.lt_0_succ 1) res Hres) as [Hkeys _].
    rewrite <- (length_map entry_key), Hkeys, (top_length argsort Hk). reflexivity.
Qed.

(** C2 (as amended): the query item is one of the candidates and is not
    excluded.  Row i is ranked with the other rows; the indexes that are
    returned are the first [top_n] of the ranking, none is filtered out;
    so that, when [top_n] covers every row of the table and every row has
    a title, the list that is returned contains item i.  Its entry need
    not come first, nor have similarity 1: when the row of item i is the
    zero vector, every entry that is returned has similarity 0. *)
Theorem most_similar_self_candidate (argsort : argsort_kernel) (item_id : nat)
    (M : matrix) (titles : list (nat * string)) (top_n : nat) (target : vec) :
  argsort_contract argsort ->
  well_shaped M -> 0 < ncols M ->
  nth_error (mrows M) item_id = Some target ->
  let sorted_indexes := np.reversed (argsort (similarities target M)) in
  In item_id sorted_indexes /\
  (forall res, most_similar argsort item_id M titles top_n = Ok res ->
               map entry_id res = np.head_slice top_n sorted_indexes) /\
  (length (mrows M) <= top_n ->
   (forall j, j < length (mrows M) -> In j (map fst titles)) ->
   exists res, most_similar argsort item_id M titles top_n = Ok res /\
               In item_id (map entry_id res)) /\
  (zero_vector target ->
   forall res e, most_similar argsort item_id M titles top_n = Ok res ->
                 In e res -> entry_sim e = 0%R).
Proof.
  intros Hk Hw Hcols Htarget sorted_indexes.
  pose proof (well_shaped_row M item_id target Hw Htarget) as Hdim.
  assert (Hrow : item_id < length (mrows M)) by (apply nth_error_Some; congruence).
  assert (Hids : forall res, most_similar argsort item_id M titles top_n = Ok res ->
                 map entry_id res
                 = map fst (firstn top_n (ranked argsort (similarities target M)))).
  { intros res Hres.
    destruct (most_similar_inv argsort Hk item_id M titles top_n target
                Htarget Hdim Hcols res Hres) as [Hkeys _].
    rewrite <- Hkeys, map_map. reflexivity. }
  split; [|split; [|split]].
  - unfold sorted_indexes, np.reversed. apply -> in_rev.
    apply (argsort_In argsort Hk). unfold similarities. now rewrite length_map.
  - intros res Hres. rewrite (Hids res Hres), <- firstn_map, ranked_fst. reflexivity.
  - intros Hn Htitles.
    destruct (most_similar_returns argsort Hk item_id M titles top_n target
                Htarget Hdim Hcols) as [res Hres].
    { intros j Hj. apply Htitles.
      now apply (top_index_bound argsort Hk M top_n target) in Hj. }
    exists res. split; [exact Hres|].
    rewrite (Hids res Hres). now apply top_all.
  - intros Hz res e Hres He.
    destruct (most_similar_ok_inv _ _ _ _ _ _ Hres) as (target' & Ht' & _ & _ & Hall).
    assert (target' = target) by congruence. subst target'.
    destruct (Hall e He) as [_ Hs]. unfold similarities in Hs.
    rewrite nth_error_map in Hs.
    destruct (nth_error (mrows M) (entry_id e)) as [v|]; simpl in Hs; [|discriminate].
    injection Hs as <-. now apply dot_normalize_zero_l.
Qed.

Lemma most_similar_self_candidate_witness :
  (exists res, most_similar stable_kernel 1 sample_embeddings titles_with_row0 3 = Ok res /\
               In 1 (map entry_id res)) /\
  (forall res e, most_similar stable_kernel 1 zero_row_embeddings titles_with_row0 3 = Ok res ->
                 In e res -> entry_sim e = 0%R).
Proof.
  split.
  - apply (most_similar_self_candidate stable_kernel 1 sample_embeddings titles_with_row0 3
             [1; 0]%R stable_kernel_contract sample_embeddings_shaped
             (Nat.lt_0_succ 1) eq_refl).
    + simpl. lia.
    + simpl. intros j Hj. lia.
  - apply (most_similar_self_candidate stable_kernel 1 zero_row_embeddings titles_with_row0 3
             [0; 0]%R stable_kernel_contract zero_row_embeddings_shaped
             (Nat.lt_0_succ 1) eq_refl).
    repeat constructor.
Defined.

(** C2 (as stated) fails: when the row of the query item is the zero
    vector every similarity is 0.0, its own included, so that, whatever
    the kernel, the first entry is not item 1 with similarity 1.0.  With
    the order-preserving kernel it is item 2, with similarity 0.0. *)
Lemma most_similar_zero_row_not_self :
  zero_vector [0; 0]%R /\
  nth_error (mrows zero_row_embeddings) 1 = Some [0; 0]%R /\
  ~ (exists argsort title rest,
       most_similar argsort 1 zero_row_embeddings sample_titles 1
       = Ok ((1, title, 1%R) :: rest)) /\
  most_similar stable_kernel 1 zero_row_embeddings sample_titles 1
    = Ok [ (2, "GoldenEye"%string, 0%R) ].
Proof.
  split; [repeat constructor|]. split; [reflexivity|]. split.
  - intros (argsort & title & rest & Hres).
    destruct (most_similar_ok_inv _ _ _ _ _ _ Hres) as (target & Ht & _ & _ & Hall).
    injection Ht as <-.
    destruct (Hall (1, title, 1%R) (or_introl eq_refl)) as [_ Hs].
    rewrite similarities_zero_row in Hs. simpl in Hs. injection Hs as Hs. lra.
  - rewrite (most_similar_unfold stable_kernel stable_kernel_contract
               1 zero_row_embeddings sample_titles 1 [0; 0]%R);
      [|reflexivity|reflexivity|simpl; lia].
    rewrite similarities_zero_row, ranked_zero_row. reflexivity.
Qed.

(** ** The candidates of [recommend] *)

Lemma unseen_item_ids_spec (env : Frames) (user_id : nat) (ids : list nat) :
  unseen_item_ids env user_id = Ok ids ->
  exists max_item_id,
    pd.max (map items_item_id (items env)) = Ok max_item_id /\
    forall x, In x ids <->
              1 <= x < max_item_id /\ ~ In x (seen_movies_of env user_id).
Proof.
  unfold unseen_item_ids.
  destruct (pd.max (map items_item_id (items env))) as [mx|e]; simpl; [|discriminate].
  intros H. injection H as <-. exists mx. split; [reflexivity|].
  intros x. rewrite filter_In. unfold range. rewrite in_seq, negb_true_iff.
  assert (Hseen : existsb (Nat.eqb x) (seen_movies_of env user_id) = false <->
                  ~ In x (seen_movies_of env user_id)).
  { rewrite <- not_true_iff_false, existsb_exists. split; intros H Hc; apply H.
    - exists x. split; [assumption|apply Nat.eqb_refl].
    - destruct Hc as (y & Hy & E). apply Nat.eqb_eq in E. now subst. }
  rewrite Hseen. split; intros [H1 H2]; (split; [lia|assumption]).
Qed.

(** ** The candidates of [most_similar] *)

Lemma item_embeddings_shape (m : RegressionModel) (max_user_id max_item_id : nat) :
  model_sized m max_user_id max_item_id ->
  well_shaped (get_item_embeddings m) /\
  length (mrows (get_item_embeddings m)) = max_item_id + 1.
Proof.
  intros (_ & [Hlen Hall] & _ & Hni & _). unfold well_shaped, get_item_embeddings. simpl.
  split; [exact Hall|congruence].
Qed.

(** C10 (as amended): the candidates of [most_similar] are all the rows
    of the item embedding table, 0 to [max_item_id] included: every
    returned index is one of them, and asking for more than [max_item_id]
    entries returns all of them, row 0 included, when every row has a
    title.  When the titles have no row labelled 0 (item ids start at 1),
    row 0 is still ranked, but it is never part of a returned list: once
    it is selected the title lookup raises [KeyError].  [recommend]
    enumerates its candidates from 1, and 0 is never one of them. *)
Theorem most_similar_candidates_all_rows (argsort : argsort_kernel)
    (m : RegressionModel) (max_user_id max_item_id item_id : nat)
    (titles : list (nat * string)) (top_n : nat) :
  argsort_contract argsort ->
  model_sized m max_user_id max_item_id ->
  0 < keras.output_dim (item_embedding m) ->
  item_id <= max_item_id ->
  let M := get_item_embeddings m in
  (forall res, most_similar argsort item_id M titles top_n = Ok res ->
     forall e, In e res -> entry_id e <= max_item_id) /\
  (max_item_id < top_n ->
     (forall j, j <= max_item_id -> In j (map fst titles)) ->
     exists res, most_similar argsort item_id M titles top_n = Ok res /\
                 Permutation (map entry_id res) (seq 0 (max_item_id + 1))) /\
  (~ In 0 (map fst titles) ->
     (forall res, most_similar argsort item_id M titles top_n = Ok res ->
        ~ In 0 (map entry_id res)) /\
     (max_item_id < top_n ->
        most_similar argsort item_id M titles top_n = Raise KeyError)) /\
  (forall env user_id ids, unseen_item_ids env user_id = Ok ids ->
     ~ In 0 ids /\ forall x, In x ids -> 1 <= x).
Proof.
  intros Hk Hsized Hdimpos Hid M.
  destruct (item_embeddings_shape m max_user_id max_item_id Hsized) as [Hw Hrows].
  fold M in Hw, Hrows.
  assert (Hcols : 0 < ncols M) by exact Hdimpos.
  destruct (nth_error (mrows M) item_id) as [target|] eqn:Htarget;
    [|apply nth_error_None in Htarget; lia].
  pose proof (well_shaped_row M item_id target Hw Htarget) as Hdim.
  assert (Hids : forall res, map entry_key res
                   = firstn top_n (ranked argsort (similarities target M)) ->
                 map entry_id res
                   = map fst (firstn top_n (ranked argsort (similarities target M)))).
  { intros res <-. rewrite map_map. reflexivity. }
  assert (Hall : max_item_id < top_n ->
            firstn top_n (ranked argsort (similarities target M))
            = ranked argsort (similarities target M)).
  { intros Hn. apply firstn_all2. rewrite (ranked_length argsort Hk).
    unfold similarities. rewrite length_map. lia. }
  assert (Hperm : Permutation (map fst (ranked argsort (similarities target M)))
                              (seq 0 (max_item_id + 1))).
  { rewrite <- Hrows. replace (length (mrows M)) with (length (similarities target M))
      by (unfold similarities; apply length_map).
    apply (ranked_fst_perm argsort Hk). }
  split; [|split; [|split]].
  - intros res Hres e He.
    destruct (most_similar_inv argsort Hk item_id M titles top_n target
                Htarget Hdim Hcols res Hres) as [Hkeys _].
    assert (Hin : In (entry_id e) (map entry_id res)) by now apply in_map.
    rewrite (Hids res Hkeys) in Hin. apply (top_index_bound argsort Hk) in Hin. lia.
  - intros Hn Htitles.
    destruct (most_similar_returns argsort Hk item_id M titles top_n target
                Htarget Hdim Hcols) as [res Hres].
    { intros j Hj. apply Htitles. apply (top_index_bound argsort Hk) in Hj. lia. }
    exists res. split; [exact Hres|].
    destruct (most_similar_inv argsort Hk item_id M titles top_n target
                Htarget Hdim Hcols res Hres) as [Hkeys _].
    rewrite (Hids res Hkeys), (Hall Hn). exact Hperm.
  - intros Hno. split.
    + intros res Hres Hin.
      destruct (most_similar_inv argsort Hk item_id M titles top_n target
                  Htarget Hdim Hcols res Hres) as [Hkeys Htitles].
      rewrite (Hids res Hkeys) in Hin. exact (Hno (Htitles 0 Hin)).
    + intros Hn.
      apply (most_similar_keyerror argsort Hk item_id M titles top_n target
               Htarget Hdim Hcols 0); [|exact Hno].
      rewrite (Hall Hn). apply (Permutation_in _ (Permutation_sym Hperm)).
      apply in_seq. lia.
  - intros env user_id ids Hids'.
    destruct (unseen_item_ids_spec env user_id ids Hids') as (mx & _ & Hspec).
    split.
    + intros H0. apply Hspec in H0. lia.
    + intros x Hx. apply Hspec in Hx. lia.
Qed.

Lemma most_similar_candidates_all_rows_witness :
  most_similar stable_kernel 1 (get_item_embeddings sample_similarity_model)
               sample_titles 5
  = Raise KeyError.
Proof.
  refine (proj2 (proj1 (proj2 (proj2
    (most_similar_candidates_all_rows stable_kernel sample_similarity_model 2 2 1
       sample_titles 5 stable_kernel_contract _ _ _))) _) _).
  - unfold model_sized, sized. simpl. repeat split; repeat constructor.
  - simpl. lia.
  - lia.
  - simpl. intuition discriminate.
  - lia.
Defined.

(** C10 (as stated) fails on one point: with titles that have no row
    labelled 0, no list returned by [most_similar] contains row 0,
    whatever the kernel. *)
Lemma most_similar_never_returns_row0 :
  ~ (exists argsort item_id M titles top_n res,
       ~ In 0 (map fst titles) /\
       most_similar argsort item_id M titles top_n = Ok res /\
       In 0 (map entry_id res)).
Proof.
  intros (argsort & item_id & M & titles & top_n & res & Hno & Hres & Hin).
  destruct (most_similar_ok_inv _ _ _ _ _ _ Hres) as (target & _ & _ & _ & Hall).
  apply in_map_iff in Hin. destruct Hin as (e & E & He).
  apply Hno. rewrite <- E. now apply (Hall e He).
Qed.

(** ** [recommend] *)

Lemma predict_sample :
  predict sample_model ([1; 1], [2; 3]) = Ok [2; 3]%R.
Proof.
  unfold predict, call, keras.embed, keras.Dot. simpl.
  repeat f_equal; lra.
Qed.

(** Two distinct values leave the kernel no choice. *)
Lemma argsort_two (argsort : argsort_kernel) (x y : R) :
  argsort_contract argsort -> (x < y)%R -> argsort [x; y] = [0; 1].
Proof.
  intros H Hxy. destruct (H [x; y]) as [P S]. simpl in P.
  apply Permutation_sym, Permutation_length_2_inv in P.
  destruct P as [E|E]; [exact E|].
  rewrite E in S. inversion S as [|? ? _ Hall]; subst.
  inversion Hall as [|? ? H01 _]; subst.
  unfold ascending_by in H01. simpl in H01. lra.
Qed.

Lemma mapM_nth {A B : Type} (f : A -> result B) (l : list A) (r : list B)
    (p : nat) (x : A) :
  mapM f l = Ok r -> nth_error l p = Some x ->
  exists y, f x = Ok y /\ nth_error r p = Some y.
Proof.
  revert r p. induction l as [|a t IH]; simpl; intros r p H Hp.
  - destruct p; discriminate.
  - destruct (f a) as [b|e] eqn:E; simpl in H; [|discriminate].
    destruct (mapM f t) as [bs|e] eqn:M; simpl in H; [|discriminate].
    injection H as <-. destruct p as [|p]; simpl in Hp |- *.
    + injection Hp as <-. eauto.
    + now apply (IH bs).
Qed.

Lemma mapM_result_In {A B : Type} (f : A -> result B) (l : list A) (r : list B) (y : B) :
  mapM f l = Ok r -> In y r -> exists x, In x l /\ f x = Ok y.
Proof.
  revert r. induction l as [|a t IH]; simpl; intros r H Hy.
  - injection H as <-. contradiction.
  - destruct (f a) as [b|e] eqn:E; simpl in H; [|discriminate].
    destruct (mapM f t) as [bs|e] eqn:M; simpl in H; [|discriminate].
    injection H as <-. destruct Hy as [<-|Hy]; [eauto|].
    destruct (IH bs eq_refl Hy) as (x & Hx & Fx). eauto.
Qed.

Lemma predict_length (m : RegressionModel) (users item_ids : list nat) (ys : list R) :
  predict m (users, item_ids) = Ok ys -> length ys = length item_ids.
Proof.
  unfold predict, call, keras.embed. simpl.
  destruct (Nat.eqb_spec (length users) (length item_ids)) as [E|E]; simpl; [|discriminate].
  destruct (length users =? 0); [discriminate|].
  destruct (mapM (keras.lookup (user_embedding m)) users) as [us|] eqn:Mu;
    simpl; [|discriminate].
  destruct (mapM (keras.lookup (item_embedding m)) item_ids) as [vs|] eqn:Mv;
    simpl; [|discriminate].
  intros H. injection H as <-. unfold keras.Dot.
  apply mapM_ok_length in Mu. apply mapM_ok_length in Mv.
  rewrite length_map, length_combine. lia.
Qed.

(** The batch prediction agrees, position by position, with the
    prediction for one (user, item) pair. *)
Lemma predict_batch_nth (m : RegressionModel) (user_id : nat) (item_ids : list nat)
    (ys : list R) (p item : nat) (r : R) :
  predict m (repeat user_id (length item_ids), item_ids) = Ok ys ->
  nth_error item_ids p = Some item -> nth_error ys p = Some r ->
  predict_one m user_id item = Ok r.
Proof.
  unfold predict, call, keras.embed. simpl. rewrite repeat_length, Nat.eqb_refl. simpl.
  destruct (length item_ids =? 0); [discriminate|].
  destruct (mapM (keras.lookup (user_embedding m)) (repeat user_id (length item_ids)))
    as [us|] eqn:Mu; simpl; [|discriminate].
  destruct (mapM (keras.lookup (item_embedding m)) item_ids) as [vs|] eqn:Mv;
    simpl; [|discriminate].
  intros H Hp Hr. injection H as <-.
  assert (Hlt : p < length item_ids) by (apply nth_error_Some; congruence).
  assert (Hu : nth_error (repeat user_id (length item_ids)) p = Some user_id).
  { rewrite (nth_error_nth' _ user_id) by (now rewrite repeat_length).
    now rewrite nth_repeat. }
  destruct (mapM_nth _ _ _ _ _ Mu Hu) as (u & Lu & Nu).
  destruct (mapM_nth _ _ _ _ _ Mv Hp) as (v & Lv & Nv).
  unfold keras.Dot in Hr. rewrite nth_error_map in Hr.
  assert (Hc : nth_error (combine us vs) p = Some (u, v)).
  { clear - Nu Nv. revert us vs Nu Nv.
    induction p as [|p IH]; intros [|a us] [|b vs] Nu Nv; simpl in *; try discriminate.
    - now injection Nu as ->; injection Nv as ->.
    - now apply IH. }
  rewrite Hc in Hr. simpl in Hr. injection Hr as <-.
  unfold predict_one, predict, call, keras.embed. simpl. rewrite Lu, Lv. reflexivity.
Qed.

(** X16: what [recommend] returns, in general: each entry pairs the rating
    predicted for the candidate at some position [p] of the candidate
    array with the title found under the label [p], that is, the title of
    the item whose id is [p], not of the candidate at position [p]. *)
Lemma recommend_titles_by_position (argsort : argsort_kernel) (env : Frames)
    (model : RegressionModel) (user_id top_n : nat) (res : list (string * R)) :
  recommend argsort env model user_id top_n = Ok res ->
  exists item_ids,
    unseen_item_ids env user_id = Ok item_ids /\
    forall title r, In (title, r) res ->
      exists p candidate row,
        nth_error item_ids p = Some candidate /\
        predict_one model user_id candidate = Ok r /\
        pd.loc (indexed_items env) p = Ok row /\ title = items_title row.
Proof.
  unfold recommend.
  destruct (unseen_item_ids env user_id) as [item_ids|] eqn:U; simpl; [|discriminate].
  destruct (predict model (repeat user_id (length item_ids), item_ids)) as [ys|] eqn:P;
    simpl; [|discriminate].
  intros H. exists item_ids. split; [reflexivity|]. intros title r Hin.
  destruct (mapM_result_In _ _ _ _ H Hin) as (p & Hp & Fp).
  destruct (pd.loc (indexed_items env) p) as [row|] eqn:L; simpl in Fp; [|discriminate].
  unfold np.getitem in Fp.
  destruct (nth_error ys p) as [r'|] eqn:N; simpl in Fp; [|discriminate].
  injection Fp as <- <-.
  assert (Hlt : p < length item_ids).
  { rewrite <- (predict_length _ _ _ _ P). apply nth_error_Some. congruence. }
  destruct (nth_error item_ids p) as [candidate|] eqn:C;
    [|apply nth_error_None in C; lia].
  exists p, candidate, row. split; [exact C|]. split; [|split; [exact L|reflexivity]].
  now apply (predict_batch_nth model user_id item_ids ys p candidate r').
Qed.

(** C1 fails on the code.  User 1 has rated item 1 ("Toy Story") only.
    The candidates are items 2 and 3, with predicted ratings 2 and 3; the
    best candidate is item 3, at position 1 of the candidate array.
    [recommend] looks the title up with that position as if it were an
    item id, and returns "Toy Story", an item of the user's history,
    together with the rating predicted for item 3.  The two ratings
    differ, so that this is the outcome whatever the kernel of
    [argsort]. *)
Theorem recommend_returns_seen_item (argsort : argsort_kernel) :
  argsort_contract argsort ->
  In 1 (seen_movies_of sample_env 1) /\
  pd.loc (pd.column items_title (indexed_items sample_env)) 1 = Ok "Toy Story"%string /\
  pd.loc (pd.column items_title (indexed_items sample_env)) 3 = Ok "Four Rooms"%string /\
  unseen_item_ids sample_env 1 = Ok [2; 3] /\
  predict sample_model ([1; 1], [2; 3]) = Ok [2; 3]%R /\
  recommend argsort sample_env sample_model 1 1 = Ok [ ("Toy Story"%string, 3%R) ].
Proof.
  intros Hk.
  assert (U : unseen_item_ids sample_env 1 = Ok [2; 3]) by reflexivity.
  split; [simpl; auto|]. split; [reflexivity|]. split; [reflexivity|].
  split; [exact U|]. split; [exact predict_sample|].
  unfold recommend. rewrite U. cbn [bind length repeat].
  rewrite predict_sample. cbn [bind]. rewrite (argsort_two argsort 2 3 Hk) by lra.
  reflexivity.
Qed.

Lemma recommend_returns_seen_item_witness :
  In 1 (seen_movies_of sample_env 1) /\
  pd.loc (pd.column items_title (indexed_items sample_env)) 1 = Ok "Toy Story"%string /\
  pd.loc (pd.column items_title (indexed_items sample_env)) 3 = Ok "Four Rooms"%string /\
  unseen_item_ids sample_env 1 = Ok [2; 3] /\
  predict sample_model ([1; 1], [2; 3]) = Ok [2; 3]%R /\
  recommend stable_kernel sample_env sample_model 1 1
  = Ok [ ("Toy Story"%string, 3%R) ].
Proof. exact (recommend_returns_seen_item stable_kernel stable_kernel_contract). Defined.

(** * Further properties of the notebook's code *)

(** ** [cosine]: symmetry *)

(** X1: [cosine] is symmetric in its two arguments, errors included. *)
Theorem cosine_symmetric (a b : vec) : cosine a b = cosine b a.
Proof.
  destruct (Nat.eq_dec (length a) (length b)) as [E|E].
  - destruct (Nat.eq_dec (length a) 0) as [Z|Z].
    + rewrite (cosine_shape_error a b), (cosine_shape_error b a); auto.
      right. congruence.
    + rewrite (cosine_eq a b), (cosine_eq b a) by lia. f_equal. apply dot_comm.
  - rewrite (cosine_shape_error a b), (cosine_shape_error b a); auto.
Qed.

(** ** [print_similarity] *)

(** X4: when both items have a title and a row, [print_similarity] writes
    the two titles, in the order of its arguments, and then the cosine of
    the two rows; what it writes as similarity is the same when the two
    items are exchanged. *)
Theorem print_similarity_output (item_a item_b : nat) (M : matrix)
    (titles : list (nat * string)) (title_a title_b : string) (a b : vec) :
  well_shaped M -> 0 < ncols M ->
  pd.loc titles item_a = Ok title_a -> pd.loc titles item_b = Ok title_b ->
  nth_error (mrows M) item_a = Some a -> nth_error (mrows M) item_b = Some b ->
  exists s,
    cosine a b = Ok s /\
    print_similarity item_a item_b M titles
      = ([Text title_a; Text title_b; Similarity s], Ok tt) /\
    print_similarity item_b item_a M titles
      = ([Text title_b; Text title_a; Similarity s], Ok tt).
Proof.
  intros Hw Hcols Ta Tb Ha Hb.
  pose proof (well_shaped_row M item_a a Hw Ha) as La.
  pose proof (well_shaped_row M item_b b Hw Hb) as Lb.
  exists (dot (sk.normalize_row a) (sk.normalize_row b)).
  unfold print_similarity, np.getitem. rewrite Ta, Tb, Ha, Hb. simpl.
  rewrite (cosine_eq a b), (cosine_eq b a) by lia.
  rewrite (dot_comm (sk.normalize_row b)).
  split; [reflexivity|]. split; reflexivity.
Qed.

Lemma print_similarity_output_witness :
  exists s,
    cosine [1; 0]%R [2; 0]%R = Ok s /\
    print_similarity 1 2 sample_embeddings sample_titles
      = ([Text "Toy Story"; Text "GoldenEye"; Similarity s], Ok tt) /\
    print_similarity 2 1 sample_embeddings sample_titles
      = ([Text "GoldenEye"; Text "Toy Story"; Similarity s], Ok tt).
Proof.
  apply (print_similarity_output 1 2 sample_embeddings sample_titles
           "Toy Story" "GoldenEye" [1; 0]%R [2; 0]%R).
  - exact sample_embeddings_shaped.
  - simpl. lia.
  - reflexivity.
  - reflexivity.
  - reflexivity.
  - reflexivity.
Defined.

(** ** More on joins and group sizes *)

Lemma NoDup_map_injective {A B : Type} (f : A -> B) (l : list A) (x y : A) :
  NoDup (map f l) -> In x l -> In y l -> f x = f y -> x = y.
Proof.
  induction l as [|a t IH]; simpl; intros Hnd Hx Hy E; [contradiction|].
  inversion Hnd as [|? ? Hnotin Hnd']; subst.
  destruct Hx as [->|Hx], Hy as [->|Hy]; try reflexivity.
  - exfalso. apply Hnotin. rewrite E. now apply in_map.
  - exfalso. apply Hnotin. rewrite <- E. now apply in_map.
  - now apply IH.
Qed.

Lemma StronglySorted_lt_NoDup (l : list nat) : StronglySorted lt l -> NoDup l.
Proof.
  induction 1 as [|x t Hs IH Hx]; constructor; [|exact IH].
  intros Hin. rewrite Forall_forall in Hx. specialize (Hx x Hin). lia.
Qed.

Lemma filter_all {A : Type} (f : A -> bool) (l : list A) :
  (forall x, In x l -> f x = true) -> filter f l = l.
Proof.
  induction l as [|x t IH]; simpl; intros H; [reflexivity|].
  rewrite (H x (or_introl eq_refl)). f_equal. apply IH. intros; apply H; now right.
Qed.

Lemma filter_none {A : Type} (f : A -> bool) (l : list A) :
  (forall x, In x l -> f x = false) -> filter f l = [].
Proof.
  induction l as [|x t IH]; simpl; intros H; [reflexivity|].
  rewrite (H x (or_introl eq_refl)). apply IH. intros; apply H; now right.
Qed.

Lemma filter_orb_disjoint {A : Type} (p q : A -> bool) (l : list A) :
  (forall x, In x l -> p x = true -> q x = false) ->
  Permutation (filter (fun x => p x || q x) l) (filter p l ++ filter q l).
Proof.
  induction l as [|x t IH]; simpl; intros H; [constructor|].
  assert (IH' := IH (fun y Hy => H y (or_intror Hy))).
  destruct (p x) eqn:Px; simpl.
  - rewrite (H x (or_introl eq_refl) Px). now constructor.
  - destruct (q x); [|exact IH'].
    eapply Permutation_trans; [apply perm_skip, IH'|apply Permutation_middle].
Qed.

Lemma merge_snd {L Rt : Type} (lkey : L -> nat) (rkey : Rt -> nat)
    (left : list L) (right : list Rt) :
  map snd (pd.merge lkey rkey left right)
  = flat_map (fun l => filter (fun r => rkey r =? lkey l) right) left.
Proof.
  unfold pd.merge. induction left as [|l left IH]; simpl; [reflexivity|].
  rewrite map_app, IH, map_map. simpl. now rewrite map_id.
Qed.

(** With a unique key on the left, the right rows of the join are the
    right rows that have a partner, each once. *)
Lemma merge_snd_perm {L Rt : Type} (lkey : L -> nat) (rkey : Rt -> nat)
    (left : list L) (right : list Rt) :
  NoDup (map lkey left) ->
  Permutation (map snd (pd.merge lkey rkey left right))
              (filter (fun r => existsb (fun l => rkey r =? lkey l) left) right).
Proof.
  rewrite merge_snd. induction left as [|l left IH]; simpl; intros Hnd.
  - rewrite filter_none; [constructor|reflexivity].
  - inversion Hnd as [|? ? Hnotin Hnd']; subst.
    eapply Permutation_trans; [apply Permutation_app_head, IH, Hnd'|].
    apply Permutation_sym, filter_orb_disjoint.
    intros r _ Hk. apply Nat.eqb_eq in Hk.
    apply not_true_iff_false. intros Hex. apply existsb_exists in Hex.
    destruct Hex as (l' & Hl' & Hk'). apply Nat.eqb_eq in Hk'.
    apply Hnotin. rewrite <- Hk, Hk'. now apply in_map.
Qed.

Lemma merge_snd_all {L Rt : Type} (lkey : L -> nat) (rkey : Rt -> nat)
    (left : list L) (right : list Rt) :
  NoDup (map lkey left) ->
  (forall r, In r right -> In (rkey r) (map lkey left)) ->
  Permutation (map snd (pd.merge lkey rkey left right)) right.
Proof.
  intros Hnd Hcover.
  eapply Permutation_trans; [apply merge_snd_perm, Hnd|].
  rewrite filter_all; [apply Permutation_refl|].
  intros r Hr. apply existsb_exists. apply Hcover in Hr. apply in_map_iff in Hr.
  destruct Hr as (l & E & Hl). exists l. split; [exact Hl|]. now apply Nat.eqb_eq.
Qed.

Lemma filter_key_unique {A : Type} (key : A -> nat) (l : list A) (k : nat) :
  NoDup (map key l) -> length (filter (fun x => key x =? k) l) <= 1.
Proof.
  induction l as [|x t IH]; simpl; intros Hnd; [lia|].
  inversion Hnd as [|? ? Hnotin Hnd']; subst.
  destruct (Nat.eqb_spec (key x) k) as [E|E]; [|now apply IH].
  rewrite filter_none; [simpl; lia|].
  intros y Hy. apply Nat.eqb_neq. intros E'. apply Hnotin.
  rewrite E, <- E'. now apply in_map.
Qed.

(** Number of join rows under a key: with a unique key on the left, it
    is the number of right rows with that key. *)
Lemma merge_key_count {L Rt : Type} (lkey : L -> nat) (rkey : Rt -> nat)
    (left : list L) (right : list Rt) (k : nat) :
  NoDup (map lkey left) -> In k (map lkey left) ->
  count_occ Nat.eq_dec (map (fun row => lkey (fst row)) (pd.merge lkey rkey left right)) k
  = length (filter (fun r => rkey r =? k) right).
Proof.
  assert (Hblock : forall l,
    count_occ Nat.eq_dec
      (map (fun row => lkey (fst row))
           (map (fun r => (l, r)) (filter (fun r => rkey r =? lkey l) right))) k
    = if lkey l =? k then length (filter (fun r => rkey r =? k) right) else 0).
  { intros l. rewrite map_map. simpl.
    destruct (Nat.eqb_spec (lkey l) k) as [E|E].
    - rewrite E. induction (filter (fun r => rkey r =? k) right) as [|r t IH]; simpl;
        [reflexivity|].
      destruct (Nat.eq_dec k k); [now rewrite IH|contradiction].
    - apply count_occ_not_In. intros Hin. apply in_map_iff in Hin.
      destruct Hin as (r & Er & _). contradiction. }
  unfold pd.merge. induction left as [|l left IH]; simpl; intros Hnd Hin; [contradiction|].
  inversion Hnd as [|? ? Hnotin Hnd']; subst.
  rewrite map_app, count_occ_app, Hblock.
  destruct (Nat.eqb_spec (lkey l) k) as [E|E].
  - rewrite (proj1 (count_occ_not_In Nat.eq_dec _ k)); [lia|].
    intros Hk. apply in_map_iff in Hk. destruct Hk as ([l' r] & E' & Hrow).
    simpl in E'. apply merge_In in Hrow. destruct Hrow as (Hl' & _ & _).
    apply Hnotin. rewrite E, <- E'. now apply in_map.
  - destruct Hin as [Hin|Hin]; [contradiction|]. now rewrite IH.
Qed.

Lemma count_key_In (k k' c' : nat) (acc : list (nat * nat)) :
  StronglySorted lt (map fst acc) ->
  In (k', c') (pd.count_key k acc) ->
  (k' <> k /\ In (k', c') acc) \/
  (k' = k /\ ((exists c, In (k, c) acc /\ c' = S c) \/
              (~ In k (map fst acc) /\ c' = 1))).
Proof.
  induction acc as [|[k0 c0] t IH]; simpl; intros Hs Hin.
  - destruct Hin as [E|[]]. injection E as <- <-. right. split; [reflexivity|].
    right. split; [tauto|reflexivity].
  - inversion Hs as [|? ? Hs' Hall]; subst. rewrite Forall_forall in Hall.
    assert (Hgt : forall k1 c1, In (k1, c1) t -> k0 < k1).
    { intros k1 c1 H1. apply Hall. apply in_map_iff. exists (k1, c1). auto. }
    destruct (Nat.ltb_spec k k0) as [Hlt|Hge].
    + destruct Hin as [E|[E|Hin]].
      * injection E as <- <-. right. split; [reflexivity|]. right. split; [|reflexivity].
        intros [E|Hk]; [lia|]. specialize (Hall k Hk). lia.
      * injection E as <- <-. left. split; [lia|now left].
      * left. specialize (Hgt _ _ Hin). split; [lia|now right].
    + destruct (Nat.eqb_spec k k0) as [->|Hne].
      * destruct Hin as [E|Hin].
        -- injection E as <- <-. right. split; [reflexivity|]. left. exists c0. auto.
        -- left. specialize (Hgt _ _ Hin). split; [lia|now right].
      * destruct Hin as [E|Hin].
        -- injection E as <- <-. left. split; [lia|now left].
        -- destruct (IH Hs' Hin) as [[Hk Hin']|[-> [(c & Hc & ->)|[Hk ->]]]].
           ++ left. auto.
           ++ right. split; [reflexivity|]. left. exists c. auto.
           ++ right. split; [reflexivity|]. right. split; [|reflexivity].
              intros [E|Hk']; [lia|contradiction].
Qed.

(** The size recorded for a key is the number of rows that have it. *)
Lemma groupby_size_count (keys : list nat) (k c : nat) :
  In (k, c) (pd.groupby_size keys) -> c = count_occ Nat.eq_dec keys k.
Proof.
  revert k c. induction keys as [|x t IH]; intros k c Hin; [contradiction|].
  change (pd.groupby_size (x :: t)) with (pd.count_key x (pd.groupby_size t)) in Hin.
  apply count_key_In in Hin; [|apply groupby_size_sorted]. simpl.
  destruct Hin as [[Hne Hin]|[-> [(c0 & Hc0 & ->)|[Hnone ->]]]].
  - destruct (Nat.eq_dec x k); [congruence|]. now apply IH.
  - destruct (Nat.eq_dec x x); [|contradiction]. f_equal. now apply IH.
  - destruct (Nat.eq_dec x x); [|contradiction]. f_equal. symmetry.
    apply count_occ_not_In. intros Hx. apply Hnone. now apply groupby_size_keys.
Qed.

Lemma merge_keys_sorted {L Rt : Type} (lkey : L -> nat) (rkey : Rt -> nat)
    (left : list L) (right : list Rt) :
  StronglySorted lt (map lkey left) -> NoDup (map rkey right) ->
  StronglySorted lt (map (fun row => lkey (fst row)) (pd.merge lkey rkey left right)).
Proof.
  intros Hs Hnd. unfold pd.merge.
  induction left as [|l left IH]; simpl; [constructor|].
  inversion Hs as [|? ? Hs' Hall]; subst. specialize (IH Hs').
  rewrite Forall_forall in Hall.
  assert (Hrest : Forall (lt (lkey l))
            (map (fun row => lkey (fst row))
               (flat_map (fun l0 => map (fun r => (l0, r))
                            (filter (fun r => rkey r =? lkey l0) right)) left))).
  { apply Forall_forall. intros k Hk. apply in_map_iff in Hk.
    destruct Hk as ([l' r] & <- & Hrow). apply (merge_In lkey rkey) in Hrow.
    simpl. apply Hall. apply in_map. tauto. }
  pose proof (filter_key_unique rkey right (lkey l) Hnd) as Hone.
  destruct (filter (fun r => rkey r =? lkey l) right) as [|r [|r' t]]; simpl in *.
  - exact IH.
  - constructor; assumption.
  - lia.
Qed.

(** X5: the popularity recorded for an item is the number of ratings of
    that item, and after the popularity merge the items table has one row
    per rated item, in ascending order of item id (item ids being unique
    in the items read from disk). *)
Theorem popularity_is_rating_count (items0 : list Item.t) (raw_ratings : list Rating.t) :
  NoDup (map Item.item_id items0) ->
  let env := prepare items0 raw_ratings in
  (forall row, In row (items env) ->
     items_popularity row
     = length (filter (fun r => Rating.item_id r =? items_item_id row) raw_ratings)) /\
  StronglySorted lt (map items_item_id (items env)).
Proof.
  intros Hnd env. split.
  - intros [p it] Hin. apply items_after_merge in Hin. destruct Hin as (Hit & Hp & Hk).
    unfold items_popularity, items_item_id. simpl.
    unfold popularity_of in Hp. apply in_map_iff in Hp.
    destruct Hp as ([k c] & <- & Hkc). simpl in *.
    apply groupby_size_count in Hkc. rewrite Hkc.
    unfold merge_items_ratings. apply merge_key_count; [exact Hnd|].
    rewrite <- Hk. now apply in_map.
  - unfold env, prepare, merge_popularity_items. simpl.
    apply (merge_keys_sorted Popularity.item_id Item.item_id); [|exact Hnd].
    unfold popularity_of. rewrite map_map. simpl. apply groupby_size_sorted.
Qed.

Lemma popularity_is_rating_count_witness :
  let env := prepare sample_items (rated 3 2 5 :: sample_ratings) in
  (forall row, In row (items env) ->
     items_popularity row
     = length (filter (fun r => Rating.item_id r =? items_item_id row)
                      (rated 3 2 5 :: sample_ratings))) /\
  StronglySorted lt (map items_item_id (items env)).
Proof.
  apply (popularity_is_rating_count sample_items (rated 3 2 5 :: sample_ratings)).
  simpl. repeat constructor; simpl; intuition discriminate.
Defined.

Lemma popularity_keys_NoDup (rows : list (Item.t * Rating.t)) :
  NoDup (map Popularity.item_id (popularity_of rows)).
Proof.
  unfold popularity_of. rewrite map_map. simpl.
  apply StronglySorted_lt_NoDup, groupby_size_sorted.
Qed.

(** X6: adding the popularity column keeps the rating rows as they are:
    the second merge neither drops nor repeats a row of the first one, and
    the popularity attached to a row is that of the row's own item. *)
Theorem popularity_merge_keeps_ratings (items0 : list Item.t)
    (raw_ratings : list Rating.t) :
  let env := prepare items0 raw_ratings in
  Permutation (map snd (all_ratings env)) (merge_items_ratings items0 raw_ratings) /\
  length (all_ratings env) = length (merge_items_ratings items0 raw_ratings) /\
  (forall row, In row (all_ratings env) ->
     In (fst row) (popularity_of (merge_items_ratings items0 raw_ratings)) /\
     Popularity.item_id (fst row) = Item.item_id (fst (snd row)) /\
     Item.item_id (fst (snd row)) = Rating.item_id (snd (snd row))).
Proof.
  intros env.
  assert (P : Permutation (map snd (all_ratings env))
                          (merge_items_ratings items0 raw_ratings)).
  { unfold env, prepare, merge_popularity_ratings. simpl.
    apply merge_snd_all; [apply popularity_keys_NoDup|].
    intros row Hrow.
    destruct (popularity_of_key (merge_items_ratings items0 raw_ratings)
                (Item.item_id (fst row))) as (p & Hp & Ep).
    { apply (in_map (fun row0 => Item.item_id (fst row0))). exact Hrow. }
    rewrite <- Ep. now apply in_map. }
  split; [exact P|]. split.
  - rewrite <- (Permutation_length P). now rewrite length_map.
  - intros [p [it r]] Hrow. unfold env, prepare, merge_popularity_ratings in Hrow.
    simpl in Hrow. apply merge_In in Hrow. destruct Hrow as (Hp & Hir & Hk).
    unfold merge_items_ratings in Hir. apply merge_In in Hir.
    destruct Hir as (_ & _ & Hk'). simpl in *. repeat split; auto.
Qed.

Lemma loc_column {Row V : Type} (f : Row -> V) (df : list (nat * Row)) (label : nat) :
  pd.loc (pd.column f df) label = (row <- pd.loc df label ;; Ok (f row)).
Proof.
  unfold pd.loc, pd.column. induction df as [|[k row] t IH]; simpl; [reflexivity|].
  destruct (k =? label); [reflexivity|exact IH].
Qed.

(** X7: looking an item up by its id returns that item: for every rated
    item (item ids being unique), [indexed_items.loc[item_id]] is the row
    of that very item and [indexed_items["title"][item_id]] is its
    title. *)
Theorem title_lookup_round_trip (items0 : list Item.t) (raw_ratings : list Rating.t)
    (it : Item.t) :
  NoDup (map Item.item_id items0) ->
  In it items0 ->
  (exists r, In r raw_ratings /\ Rating.item_id r = Item.item_id it) ->
  let env := prepare items0 raw_ratings in
  (exists p, pd.loc (indexed_items env) (Item.item_id it) = Ok (p, it)) /\
  pd.loc (pd.column items_title (indexed_items env)) (Item.item_id it)
    = Ok (Item.title it).
Proof.
  intros Hnd Hit (r & Hr & Er) env.
  assert (Hrow : exists p, In (p, it) (items env)).
  { destruct (popularity_of_key (merge_items_ratings items0 raw_ratings) (Item.item_id it))
      as (p & Hp & Ep).
    - apply rated_key. exists it, r. auto.
    - exists p. apply items_after_merge. auto. }
  destruct Hrow as (p & Hp).
  assert (Hp' := Hp). apply items_after_merge in Hp'. destruct Hp' as (_ & _ & Ek).
  destruct (loc_present (indexed_items env) (Item.item_id it)) as ([p' it'] & Hloc & Hin).
  { unfold env, prepare, pd.set_index. simpl. rewrite map_map. simpl.
    apply in_map_iff. exists (p, it). split; [|exact Hp].
    unfold items_item_id. simpl. congruence. }
  assert (it' = it).
  { unfold env, prepare, pd.set_index in Hin. simpl in Hin.
    apply in_map_iff in Hin. destruct Hin as ([q jt] & E & Hq). injection E as E1 -> ->.
    unfold items_item_id in E1. simpl in E1.
    apply items_after_merge in Hq. destruct Hq as (Hjt & _ & Ej).
    apply (NoDup_map_injective Item.item_id items0); auto. congruence. }
  subst it'. split; [exists p'; exact Hloc|].
  rewrite loc_column, Hloc. reflexivity.
Qed.

Lemma title_lookup_round_trip_witness :
  (exists p, pd.loc (indexed_items sample_env) 3 = Ok (p, movie 3 "Four Rooms" None)) /\
  pd.loc (pd.column items_title (indexed_items sample_env)) 3 = Ok "Four Rooms"%string.
Proof.
  apply (title_lookup_round_trip sample_items sample_ratings (movie 3 "Four Rooms" None)).
  - simpl. repeat constructor; simpl; intuition discriminate.
  - simpl. auto.
  - exists (rated 2 3 4). simpl. auto.
Defined.

(** ** The most popular movies *)

Lemma combine_snd {A B : Type} (l1 : list A) (l2 : list B) :
  length l1 = length l2 -> map snd (combine l1 l2) = l2.
Proof.
  revert l2. induction l1 as [|x t IH]; intros [|y l2]; simpl; intros H;
    try reflexivity; try discriminate.
  f_equal. apply IH. now injection H.
Qed.

Lemma enumerate_snd {A : Type} (a : list A) : map snd (np.enumerate a) = a.
Proof. unfold np.enumerate. apply combine_snd. apply length_seq. Qed.

Lemma StronglySorted_app_cross {A : Type} (Rel : A -> A -> Prop) (l1 l2 : list A)
    (x y : A) :
  StronglySorted Rel (l1 ++ l2) -> In x l1 -> In y l2 -> Rel x y.
Proof.
  induction l1 as [|a t IH]; simpl; intros Hs Hx Hy; [contradiction|].
  inversion Hs as [|? ? Hs' Hall]; subst. destruct Hx as [->|Hx].
  - rewrite Forall_forall in Hall. apply Hall, in_or_app. now right.
  - now apply IH.
Qed.

Lemma by_value_sorted {Row : Type} (column : Row -> nat) (df : list Row) :
  StronglySorted (fun x y => column y <= column x)
    (map snd (np.sort_pairs (fun x y => column y <=? column x) (np.enumerate df))).
Proof.
  apply StronglySorted_map_intro.
  eapply StronglySorted_weaken;
    [|apply (argsort_lex (fun x y : Row => column y <=? column x))].
  - intros p q [H _]. now apply Nat.leb_le in H.
  - intros x y. destruct (Nat.le_ge_cases (column x) (column y)) as [H|H];
      [right|left]; now apply Nat.leb_le.
  - intros x y z H1 H2. apply Nat.leb_le in H1, H2. apply Nat.leb_le. lia.
Qed.

(** X8: [nlargest(n, column)] returns min(n, number of rows) rows of the
    frame, in non-increasing order of the column, and every row it leaves
    out has a value that is at most the value of every row it returns. *)
Theorem nlargest_spec {Row : Type} (n : nat) (column : Row -> nat) (df : list Row) :
  exists rest,
    Permutation (nlargest n column df ++ rest) df /\
    length (nlargest n column df) = Nat.min n (length df) /\
    StronglySorted (fun x y => column y <= column x) (nlargest n column df) /\
    (forall x y, In x (nlargest n column df) -> In y rest -> column y <= column x).
Proof.
  unfold nlargest.
  set (sorted := map snd (np.sort_pairs (fun x y => column y <=? column x)
                                        (np.enumerate df))).
  assert (P : Permutation sorted df).
  { unfold sorted. rewrite <- (enumerate_snd df) at 2.
    apply Permutation_map, sort_pairs_perm. }
  assert (S : StronglySorted (fun x y => column y <= column x) sorted)
    by apply by_value_sorted.
  exists (skipn n sorted). split; [now rewrite firstn_skipn|]. split; [|split].
  - rewrite length_firstn, (Permutation_length P). reflexivity.
  - now apply StronglySorted_firstn.
  - intros x y Hx Hy. rewrite <- (firstn_skipn n sorted) in S.
    exact (StronglySorted_app_cross _ _ _ x y S Hx Hy).
Qed.

(** ** Largest ids *)

Lemma fold_left_max_spec (t : list nat) (x : nat) :
  (fold_left Nat.max t x = x \/ In (fold_left Nat.max t x) t) /\
  x <= fold_left Nat.max t x /\
  forall y, In y t -> y <= fold_left Nat.max t x.
Proof.
  revert x. induction t as [|a t IH]; intros x; simpl.
  - split; [now left|]. split; [lia|contradiction].
  - destruct (IH (Nat.max x a)) as (Hin & Hge & Hall). split; [|split].
    + destruct Hin as [E|Hin]; [|right; now right].
      rewrite E. destruct (Nat.max_spec x a) as [[_ Em]|[_ Em]]; rewrite Em; auto.
    + lia.
    + intros y [<-|Hy]; [lia|now apply Hall].
Qed.

Lemma max_spec (col : list nat) (m : nat) :
  pd.max col = Ok m -> In m col /\ forall x, In x col -> x <= m.
Proof.
  destruct col as [|x t]; simpl; [discriminate|]. intros H. injection H as <-.
  destruct (fold_left_max_spec t x) as (Hin & Hge & Hall). split.
  - destruct Hin as [->|Hin]; auto.
  - intros y [<-|Hy]; auto.
Qed.

Lemma items_ids_in_ratings (items0 : list Item.t) (raw_ratings : list Rating.t) (k : nat) :
  In k (map items_item_id (items (prepare items0 raw_ratings))) <->
  In k (item_id_array (all_ratings (prepare items0 raw_ratings))).
Proof.
  unfold item_id_array. rewrite !in_map_iff. split.
  - intros ([p it] & <- & Hin). apply items_after_merge in Hin.
    destruct Hin as (Hit & Hp & Ek). unfold items_item_id. simpl.
    destruct (popularity_of_In _ _ Hp) as [_ Hkey]. apply in_map_iff in Hkey.
    destruct Hkey as (row0 & E0 & Hrow0).
    exists (p, row0). split; [reflexivity|].
    unfold prepare, merge_popularity_ratings. simpl. apply merge_In. auto.
  - intros ([p [it r]] & <- & Hin). unfold ratings_item_id. simpl.
    unfold prepare, merge_popularity_ratings in Hin. simpl in Hin.
    apply merge_In in Hin. destruct Hin as (Hp & Hrow & Ek). simpl in Ek.
    unfold merge_items_ratings in Hrow. apply merge_In in Hrow.
    destruct Hrow as (Hit & _ & _).
    exists (p, it). split; [reflexivity|]. apply items_after_merge. auto.
Qed.

(** ** The frame plotted after t-SNE *)

(** X9: when the projection has one row per row of the item embedding
    table (positions 0 to the largest rated item id), the plotted frame
    has exactly one row per row of the items table: each pairs an item
    with the projected row at the position equal to its item id, and
    positions that are no rated item's id (position 0 among them) are
    left out. *)
Theorem tsne_frame_rows (items0 : list Item.t) (raw_ratings : list Rating.t)
    (item_tsne : list (R * R)) (max_item_id : nat) :
  let env := prepare items0 raw_ratings in
  pd.max (item_id_array (all_ratings env)) = Ok max_item_id ->
  length item_tsne = max_item_id + 1 ->
  length (tsne_frame item_tsne env) = length (items env) /\
  (forall p xy i item_row, In ((p, xy), (i, item_row)) (tsne_frame item_tsne env) ->
     p = items_item_id item_row /\ nth_error item_tsne p = Some xy /\
     nth_error (items env) i = Some item_row) /\
  (forall i item_row, nth_error (items env) i = Some item_row ->
     exists xy, In ((items_item_id item_row, xy), (i, item_row))
                   (tsne_frame item_tsne env)).
Proof.
  intros env Hmax Hlen.
  assert (Hbound : forall item_row, In item_row (items env) ->
            items_item_id item_row < length item_tsne).
  { intros item_row Hin. destruct (max_spec _ _ Hmax) as [_ Hle].
    assert (items_item_id item_row <= max_item_id); [|lia].
    apply Hle. apply items_ids_in_ratings. now apply in_map. }
  split; [|split].
  - unfold tsne_frame.
    assert (P : Permutation
              (map snd (pd.merge fst (fun row => items_item_id (snd row))
                          (np.enumerate item_tsne) (np.enumerate (items env))))
              (np.enumerate (items env))).
    { apply merge_snd_all.
      - rewrite enumerate_fst. apply seq_NoDup.
      - intros [i item_row] Hin. simpl. rewrite enumerate_fst. apply in_seq.
        apply enumerate_nth in Hin. apply nth_error_In in Hin.
        specialize (Hbound _ Hin). lia. }
    apply Permutation_length in P. rewrite length_map in P. rewrite P.
    unfold np.enumerate. rewrite length_combine, length_seq. apply Nat.min_id.
  - intros p xy i item_row Hin. unfold tsne_frame in Hin. apply merge_In in Hin.
    destruct Hin as (Hl & Hr & Ek). simpl in Ek.
    apply enumerate_nth in Hl. apply enumerate_nth in Hr. auto.
  - intros i item_row Hi.
    assert (Hin : In item_row (items env)) by (eapply nth_error_In; eassumption).
    specialize (Hbound _ Hin).
    destruct (nth_error item_tsne (items_item_id item_row)) as [xy|] eqn:E;
      [|apply nth_error_None in E; lia].
    exists xy. unfold tsne_frame. apply merge_In.
    split; [now apply enumerate_nth|]. split; [now apply enumerate_nth|reflexivity].
Qed.

Lemma tsne_frame_rows_witness :
  length (tsne_frame [(0, 0); (1, 0); (0, 1); (1, 1); (2, 2)]%R sample_env)
  = length (items sample_env).
Proof.
  apply (proj1 (tsne_frame_rows sample_items sample_ratings
                  [(0, 0); (1, 0); (0, 1); (1, 1); (2, 2)]%R 4 eq_refl eq_refl)).
Defined.

(** ** Regression metrics *)

Section MetricFacts.
Local Open Scope R_scope.

Lemma Rsum_nonneg (l : list R) : Forall (fun x => 0 <= x) l -> 0 <= Rsum l.
Proof. induction 1 as [|x t Hx Ht IH]; simpl; lra. Qed.

Lemma Rsum_squares_nonneg (l : list R) : 0 <= Rsum (map (fun x => x * x) l).
Proof. induction l as [|x t IH]; simpl; [lra|]. nra. Qed.

Lemma abs_errors_nonneg (a b : list R) : Forall (fun x => 0 <= x) (abs_errors a b).
Proof.
  unfold abs_errors. apply Forall_forall. intros x Hx. apply in_map_iff in Hx.
  destruct Hx as (p & <- & _). apply Rabs_pos.
Qed.

Lemma squared_errors_abs (a b : list R) :
  squared_errors a b = map (fun x => x * x) (abs_errors a b).
Proof.
  unfold squared_errors, abs_errors. rewrite map_map. apply map_ext. intros [x y]. simpl.
  rewrite <- Rabs_mult. rewrite Rabs_pos_eq; [ring|].
  pose proof (Rle_0_sqr (y - x)) as H. unfold Rsqr in H. exact H.
Qed.

Lemma abs_errors_sym (a b : list R) : abs_errors a b = abs_errors b a.
Proof.
  unfold abs_errors. revert b. induction a as [|x a IH]; intros [|y b]; simpl;
    try reflexivity.
  rewrite IH. f_equal. apply Rabs_minus_sym.
Qed.

Lemma squared_errors_sym (a b : list R) : squared_errors a b = squared_errors b a.
Proof. now rewrite !squared_errors_abs, abs_errors_sym. Qed.

Lemma abs_errors_same (a : list R) : Forall (fun x => x = 0) (abs_errors a a).
Proof.
  unfold abs_errors. induction a as [|x a IH]; simpl; constructor; [|exact IH].
  rewrite Rminus_diag. apply Rabs_R0.
Qed.

Lemma Rsum_all_zero (l : list R) : Forall (fun x => x = 0) l -> Rsum l = 0.
Proof. induction 1 as [|x t Hx Ht IH]; simpl; lra. Qed.

Lemma metrics_eval (a b : list R) :
  length a = length b -> (0 < length a)%nat ->
  mean_absolute_error a b = Ok (Rsum (abs_errors a b) / INR (length a)) /\
  mean_squared_error a b = Ok (Rsum (squared_errors a b) / INR (length a)).
Proof.
  intros E P. unfold mean_absolute_error, mean_squared_error, check_reg_targets.
  rewrite E, Nat.eqb_refl. simpl.
  destruct (Nat.eqb_spec (length b) 0); [lia|]. split; reflexivity.
Qed.

(** Both means are sums of terms that are not negative. *)
Lemma metric_signs (a b : list R) :
  (0 < length a)%nat ->
  0 <= Rsum (abs_errors a b) / INR (length a) /\
  0 <= Rsum (squared_errors a b) / INR (length a).
Proof.
  intros Hpos.
  assert (Hn : 0 < / INR (length a)).
  { apply Rinv_0_lt_compat, lt_0_INR. exact Hpos. }
  pose proof (Rsum_nonneg _ (abs_errors_nonneg a b)) as Hsum.
  pose proof (Rsum_squares_nonneg (abs_errors a b)) as Hsq.
  rewrite <- squared_errors_abs in Hsq.
  split; apply Rmult_le_pos; lra.
Qed.

Lemma metrics_shape_error (a b : list R) :
  length a <> length b \/ length a = 0%nat ->
  mean_absolute_error a b = Raise ValueError /\
  mean_squared_error a b = Raise ValueError.
Proof.
  intros H. unfold mean_absolute_error, mean_squared_error, check_reg_targets.
  destruct (Nat.eqb_spec (length a) (length b)) as [E|E]; simpl; [|split; reflexivity].
  destruct (Nat.eqb_spec (length a) 0) as [Z|Z]; simpl; [split; reflexivity|].
  destruct H; contradiction.
Qed.

(** X14: for two arrays of the same, non-zero, length the mean absolute
    error and the mean squared error exist and do not depend on the order
    of the two arguments (the notebook passes the predictions first);
    neither is negative, and both are zero when the two arrays are equal.
    Arrays of different lengths, and empty arrays, are rejected. *)
Theorem regression_metrics (y_true y_pred : list R) :
  (length y_true = length y_pred -> (0 < length y_true)%nat ->
   exists mae mse,
     mean_absolute_error y_true y_pred = Ok mae /\
     mean_squared_error y_true y_pred = Ok mse /\
     mean_absolute_error y_pred y_true = Ok mae /\
     mean_squared_error y_pred y_true = Ok mse /\
     0 <= mae /\ 0 <= mse /\ (y_true = y_pred -> mae = 0 /\ mse = 0)) /\
  (length y_true <> length y_pred \/ length y_true = 0%nat ->
   mean_absolute_error y_true y_pred = Raise ValueError /\
   mean_squared_error y_true y_pred = Raise ValueError).
Proof.
  split; [|apply metrics_shape_error].
  intros Hlen Hpos.
  destruct (metrics_eval y_true y_pred Hlen Hpos) as [A1 S1].
  destruct (metrics_eval y_pred y_true) as [A2 S2]; [lia|lia|].
  destruct (metric_signs y_true y_pred Hpos) as [Hnn Hsq].
  rewrite (abs_errors_sym y_pred y_true), <- Hlen in A2.
  rewrite (squared_errors_sym y_pred y_true), <- Hlen in S2.
  exists (Rsum (abs_errors y_true y_pred) / INR (length y_true)),
         (Rsum (squared_errors y_true y_pred) / INR (length y_true)).
  repeat (split; [assumption|]).
  intros <-. rewrite squared_errors_abs.
  assert (Z : Forall (fun x => x = 0) (map (fun x => x * x) (abs_errors y_true y_true))).
  { apply Forall_forall. intros x Hx. apply in_map_iff in Hx.
    destruct Hx as (y & <- & Hy).
    pose proof (abs_errors_same y_true) as Hs. rewrite Forall_forall in Hs.
    rewrite (Hs y Hy). lra. }
  rewrite (Rsum_all_zero _ (abs_errors_same y_true)), (Rsum_all_zero _ Z).
  unfold Rdiv. rewrite Rmult_0_l. split; reflexivity.
Qed.
End MetricFacts.

Lemma regression_metrics_witness :
  (exists mae mse,
     mean_absolute_error [4; 2]%R [5; 1]%R = Ok mae /\
     mean_squared_error [4; 2]%R [5; 1]%R = Ok mse /\
     mean_absolute_error [5; 1]%R [4; 2]%R = Ok mae /\
     mean_squared_error [5; 1]%R [4; 2]%R = Ok mse /\
     (0 <= mae)%R /\ (0 <= mse)%R /\
     ([4; 2]%R = [5; 1]%R -> mae = 0%R /\ mse = 0%R)) /\
  (mean_absolute_error [4; 2]%R [5]%R = Raise ValueError /\
   mean_squared_error [4; 2]%R [5]%R = Raise ValueError).
Proof.
  split.
  - apply (regression_metrics [4; 2]%R [5; 1]%R); simpl; lia.
  - apply (regression_metrics [4; 2]%R [5]%R). left. simpl. lia.
Defined.

(** ** More on [train_test_split] *)

Lemma in_unit_interval_iff (f : Q) :
  sk.in_unit_interval f = true <-> (0 < f)%Q /\ (f < 1)%Q.
Proof.
  unfold sk.in_unit_interval.
  destruct (Qlt_le_dec 0 f) as [H0|H0]; [destruct (Qlt_le_dec f 1) as [H1|H1]|].
  - tauto.
  - split; [discriminate|]. intros [_ H]. exfalso. exact (Qlt_not_le _ _ H H1).
  - split; [discriminate|]. intros [H _]. exfalso. exact (Qlt_not_le _ _ H H0).
Qed.

Lemma n_test_of_positive (f : Q) (n : nat) :
  (0 < f)%Q -> 0 < n -> 1 <= sk.n_test_of f n.
Proof.
  intros Hf Hn. unfold sk.n_test_of.
  set (x := (f * inject_Z (Z.of_nat n))%Q).
  assert (Hx : (0 < x)%Q).
  { apply Qmult_lt_0_compat; [exact Hf|]. unfold Qlt. simpl. lia. }
  pose proof (Qle_ceiling x) as Hc.
  assert (Hpos : (0 < Qceiling x)%Z).
  { destruct (Z_lt_le_dec 0 (Qceiling x)) as [H|H]; [exact H|]. exfalso.
    assert (Hle : (inject_Z (Qceiling x) <= 0)%Q) by (unfold Qle; simpl; lia).
    exact (Qlt_not_le _ _ Hx (Qle_trans _ _ _ Hc Hle)). }
  lia.
Qed.

Section SplitSizes.
Context {rng : Type}.
Variable RandomState : nat -> rng.
Variable permutation : rng -> nat -> list nat * rng.
Hypothesis permutation_spec :
  forall r n, Permutation (fst (permutation r n)) (seq 0 n).

Lemma split_ok_fraction {Row : Type} (rows : list Row) (f : Q)
    (random_state : option nat) (g : rng) (train test : list Row) :
  fst (sk.train_test_split RandomState permutation rows f random_state g)
    = Ok (train, test) ->
  (0 < f)%Q /\ (f < 1)%Q.
Proof.
  unfold sk.train_test_split. intros H. apply in_unit_interval_iff.
  destruct (sk.in_unit_interval f); [reflexivity|discriminate].
Qed.

(** The two parts of a successful split. *)
Lemma split_parts {Row : Type} (rows : list Row) (f : Q)
    (random_state : option nat) (g : rng) (train test : list Row) :
  fst (sk.train_test_split RandomState permutation rows f random_state g)
    = Ok (train, test) ->
  length test = sk.n_test_of f (length rows) /\
  length train = length rows - sk.n_test_of f (length rows) /\
  sk.n_test_of f (length rows) < length rows /\
  (forall x, In x train -> In x rows) /\ (forall x, In x test -> In x rows).
Proof.
  intros H.
  destruct (split_inv RandomState permutation permutation_spec _ _ _ _ _ _ H)
    as (itr & ite & Hperm & Ttr & Tte & Hte & Hn).
  pose proof (Permutation_length Hperm) as Hlen.
  rewrite length_app, length_seq in Hlen.
  assert (Ltr : length train = length itr) by (eapply mapM_ok_length; exact Ttr).
  assert (Lte : length test = length ite) by (eapply mapM_ok_length; exact Tte).
  destruct rows as [|d rows']; [simpl in Hn; lia|].
  destruct (take_inv _ _ _ d Ttr) as [Btr Etr].
  destruct (take_inv _ _ _ d Tte) as [Bte Ete].
  repeat split; try lia.
  - intros x Hx. rewrite Etr in Hx. apply in_map_iff in Hx.
    destruct Hx as (i & <- & Hi). apply nth_In. now apply Btr.
  - intros x Hx. rewrite Ete in Hx. apply in_map_iff in Hx.
    destruct Hx as (i & <- & Hi). apply nth_In. now apply Bte.
Qed.

(** X10: a successful split leaves no part empty and loses no row: the
    train part and the test part have at least one row each, together as
    many rows as the input, and every row of a part is a row of the
    input. *)
Theorem split_sizes {Row : Type} (rows : list Row) (f : Q)
    (random_state : option nat) (g : rng) (train test : list Row) :
  fst (sk.train_test_split RandomState permutation rows f random_state g)
    = Ok (train, test) ->
  length train + length test = length rows /\
  1 <= length test /\ 1 <= length train /\
  (forall x, In x train -> In x rows) /\ (forall x, In x test -> In x rows).
Proof.
  intros H.
  destruct (split_ok_fraction _ _ _ _ _ _ H) as [H0 _].
  destruct (split_parts _ _ _ _ _ _ H) as (Lte & Ltr & Hn & Str & Ste).
  assert (Hp : 1 <= sk.n_test_of f (length rows))
    by (apply n_test_of_positive; [exact H0|lia]).
  repeat split; try assumption; lia.
Qed.

End SplitSizes.

Lemma split_sizes_witness :
  exists train test,
    fst (split_cell toy_RandomState toy_permutation sample_env 7) = Ok (train, test) /\
    length train + length test = 4 /\ 1 <= length test /\ 1 <= length train.
Proof.
  unfold split_cell.
  destruct (fst (sk.train_test_split toy_RandomState toy_permutation
                   (all_ratings sample_env) (2 # 10) (Some 0) 7))
    as [[train test]|e] eqn:E; [|vm_compute in E; discriminate].
  exists train, test. split; [reflexivity|].
  destruct (split_sizes toy_RandomState toy_permutation toy_permutation_spec
              _ _ _ _ _ _ E) as (H1 & H2 & H3 & _).
  split; [exact H1|]. split; assumption.
Defined.


(** ** The model and the rating rows *)

Lemma embed_in_bounds (E : keras.Embedding) (inputs : list nat) :
  sized E -> (forall i, In i inputs -> i < keras.input_dim E) ->
  exists vs, keras.embed E inputs = Ok vs.
Proof.
  intros Hs Hb. unfold keras.embed. apply mapM_exists. intros i Hi.
  destruct (lookup_in_bounds E i Hs (Hb i Hi)) as (v & _ & Hv). eauto.
Qed.

Lemma predict_in_bounds (m : RegressionModel) (max_user_id max_item_id : nat)
    (users item_ids : list nat) :
  model_sized m max_user_id max_item_id ->
  length users = length item_ids -> 0 < length users ->
  (forall u, In u users -> u <= max_user_id) ->
  (forall i, In i item_ids -> i <= max_item_id) ->
  exists ys, predict m (users, item_ids) = Ok ys /\ length ys = length item_ids.
Proof.
  intros (Hu & Hi & Hnu & Hni & _) Hlen Hpos Bu Bi.
  destruct (embed_in_bounds _ users Hu) as [us Eu].
  { intros u Hin. specialize (Bu u Hin). lia. }
  destruct (embed_in_bounds _ item_ids Hi) as [vs Ev].
  { intros i Hin. specialize (Bi i Hin). lia. }
  assert (P : predict m (users, item_ids) = Ok (keras.Dot us vs)).
  { unfold predict, call. simpl. rewrite Hlen, Nat.eqb_refl. simpl.
    destruct (Nat.eqb_spec (length item_ids) 0); [lia|]. now rewrite Eu, Ev. }
  exists (keras.Dot us vs). split; [exact P|]. now apply predict_length in P.
Qed.

Lemma model_cell_sized (fu fi : nat -> nat -> R) (env : Frames) (m : RegressionModel) :
  model_cell fu fi env = Ok m ->
  exists max_user_id max_item_id,
    pd.max (user_id_array (all_ratings env)) = Ok max_user_id /\
    pd.max (item_id_array (all_ratings env)) = Ok max_item_id /\
    model_sized m max_user_id max_item_id.
Proof.
  unfold model_cell.
  destruct (pd.max (user_id_array (all_ratings env))) as [mu|]; simpl; [|discriminate].
  destruct (pd.max (item_id_array (all_ratings env))) as [mi|]; simpl; [|discriminate].
  intros H. injection H as <-. exists mu, mi. repeat split; try apply build_sized.
Qed.

Lemma rows_in_bounds (env : Frames) (max_user_id max_item_id : nat)
    (rows : list (Popularity.t * (Item.t * Rating.t))) :
  pd.max (user_id_array (all_ratings env)) = Ok max_user_id ->
  pd.max (item_id_array (all_ratings env)) = Ok max_item_id ->
  (forall row, In row rows -> In row (all_ratings env)) ->
  (forall u, In u (user_id_array rows) -> u <= max_user_id) /\
  (forall i, In i (item_id_array rows) -> i <= max_item_id).
Proof.
  intros Mu Mi Hsub. destruct (max_spec _ _ Mu) as [_ Bu].
  destruct (max_spec _ _ Mi) as [_ Bi]. split.
  - intros u Hu. unfold user_id_array in Hu. apply in_map_iff in Hu.
    destruct Hu as (row & <- & Hrow). apply Bu. unfold user_id_array.
    apply in_map. now apply Hsub.
  - intros i Hi. unfold item_id_array in Hi. apply in_map_iff in Hi.
    destruct Hi as (row & <- & Hrow). apply Bi. unfold item_id_array.
    apply in_map. now apply Hsub.
Qed.

(** X12: the model is created with tables large enough for the data: for
    the model made by the model cell, and for any model of the same shape
    (training changes the weights only), predicting the rating of any
    non-empty selection of rows of [all_ratings] succeeds, with one
    prediction per row; no id is out of range. *)
Theorem model_covers_ratings (fu fi : nat -> nat -> R) (env : Frames)
    (m0 : RegressionModel) :
  model_cell fu fi env = Ok m0 ->
  exists max_user_id max_item_id,
    model_sized m0 max_user_id max_item_id /\
    forall m rows,
      model_sized m max_user_id max_item_id ->
      rows <> [] -> (forall row, In row rows -> In row (all_ratings env)) ->
      exists ys, predict m (user_id_array rows, item_id_array rows) = Ok ys /\
                 length ys = length rows.
Proof.
  intros Hcell. destruct (model_cell_sized fu fi env m0 Hcell) as (mu & mi & Mu & Mi & Hs).
  exists mu, mi. split; [exact Hs|]. intros m rows Hm Hne Hsub.
  destruct (rows_in_bounds env mu mi rows Mu Mi Hsub) as [Bu Bi].
  destruct (predict_in_bounds m mu mi (user_id_array rows) (item_id_array rows) Hm)
    as (ys & P & L); auto.
  - unfold user_id_array, item_id_array. now rewrite !length_map.
  - unfold user_id_array. rewrite length_map. destruct rows; [contradiction|simpl; lia].
  - exists ys. split; [exact P|]. unfold item_id_array in L. now rewrite length_map in L.
Qed.

Lemma model_covers_ratings_witness :
  exists max_user_id max_item_id,
    model_sized (RegressionModel_init (fun _ _ => 1%R) (fun _ _ => 1%R) 64 2 4)
                max_user_id max_item_id /\
    forall m rows,
      model_sized m max_user_id max_item_id ->
      rows <> [] -> (forall row, In row rows -> In row (all_ratings sample_env)) ->
      exists ys, predict m (user_id_array rows, item_id_array rows) = Ok ys /\
                 length ys = length rows.
Proof.
  apply (model_covers_ratings (fun _ _ => 1%R) (fun _ _ => 1%R) sample_env).
  reflexivity.
Defined.

Section EvaluateAfterSplit.
Context {rng : Type}.
Variable RandomState : nat -> rng.
Variable permutation : rng -> nat -> list nat * rng.
Hypothesis permutation_spec :
  forall r n, Permutation (fst (permutation r n)) (seq 0 n).

(** X13: the cells compose: after a successful split of [all_ratings],
    the evaluation cell succeeds on the test part for any model of the
    shape fixed by the model cell (no id of the test part is out of
    range, and the test part is not empty), and the two errors it reports
    are not negative. *)
Theorem evaluate_after_split (env : Frames) (m : RegressionModel)
    (max_user_id max_item_id : nat) (g : rng)
    (train test : list (Popularity.t * (Item.t * Rating.t))) :
  pd.max (user_id_array (all_ratings env)) = Ok max_user_id ->
  pd.max (item_id_array (all_ratings env)) = Ok max_item_id ->
  model_sized m max_user_id max_item_id ->
  fst (split_cell RandomState permutation env g) = Ok (train, test) ->
  exists mse mae,
    evaluate_cell m test = Ok (mse, mae) /\ (0 <= mse)%R /\ (0 <= mae)%R.
Proof.
  intros Mu Mi Hm Hsplit. unfold split_cell in Hsplit.
  destruct (split_ok_fraction RandomState permutation _ _ _ _ _ _ Hsplit) as [H0 _].
  destruct (split_parts RandomState permutation permutation_spec _ _ _ _ _ _ Hsplit)
    as (Lte & _ & Hn & _ & Hsub).
  assert (Hte : 1 <= length test).
  { rewrite Lte. apply n_test_of_positive; [exact H0|lia]. }
  destruct (rows_in_bounds env max_user_id max_item_id test Mu Mi Hsub) as [Bu Bi].
  destruct (predict_in_bounds m max_user_id max_item_id
              (user_id_array test) (item_id_array test) Hm) as (ys & P & L); auto.
  - unfold user_id_array, item_id_array. now rewrite !length_map.
  - unfold user_id_array. rewrite length_map. lia.
  - unfold item_id_array in L. rewrite length_map in L.
    assert (Hl : length ys = length (rating_array test))
      by (unfold rating_array; now rewrite length_map).
    assert (Hp : 0 < length ys) by lia.
    destruct (metrics_eval ys (rating_array test) Hl Hp) as [A1 S1].
    destruct (metric_signs ys (rating_array test) Hp) as [Hnn Hsq].
    eexists. eexists. unfold evaluate_cell. rewrite P. simpl. rewrite S1. simpl.
    rewrite A1. simpl. split; [reflexivity|]. split; assumption.
Qed.
End EvaluateAfterSplit.

Lemma evaluate_after_split_witness :
  exists mse mae train test,
    fst (split_cell toy_RandomState toy_permutation sample_env 7) = Ok (train, test) /\
    evaluate_cell sample_model test = Ok (mse, mae) /\
    (0 <= mse)%R /\ (0 <= mae)%R.
Proof.
  destruct (fst (split_cell toy_RandomState toy_permutation sample_env 7))
    as [[train test]|e] eqn:E; [|vm_compute in E; discriminate].
  destruct (evaluate_after_split toy_RandomState toy_permutation toy_permutation_spec
              sample_env sample_model 2 4 7 train test) as (mse & mae & H);
    [reflexivity|reflexivity| |exact E|].
  - exact sample_model_sized.
  - exists mse, mae, train, test. split; [reflexivity|exact H].
Defined.

(** ** More on [recommend] *)

Lemma StronglySorted_filter {A : Type} (Rel : A -> A -> Prop) (f : A -> bool)
    (l : list A) :
  StronglySorted Rel l -> StronglySorted Rel (filter f l).
Proof.
  induction 1 as [|x t Hs IH Hx]; simpl; [constructor|].
  destruct (f x); [|exact IH]. constructor; [exact IH|].
  rewrite Forall_forall in Hx. apply Forall_forall. intros y Hy.
  apply filter_In in Hy. now apply Hx.
Qed.

Lemma seq_ascending (a n : nat) : StronglySorted lt (seq a n).
Proof.
  revert a. induction n as [|n IH]; intros a; simpl; constructor; [apply IH|].
  apply Forall_forall. intros y Hy. apply in_seq in Hy. lia.
Qed.

(** X15: the candidates of [recommend] are the ids from 1 up to, and not
    including, the largest item id of the items table, without the items
    the user has rated, in ascending order: the item with the largest id
    is never a candidate, whether the user has rated it or not.  With an
    empty items table there is no largest id and the call fails. *)
Theorem recommend_candidates (env : Frames) (user_id : nat) :
  (items env = [] -> unseen_item_ids env user_id = Raise TypeError) /\
  (forall ids, unseen_item_ids env user_id = Ok ids ->
     exists largest,
       pd.max (map items_item_id (items env)) = Ok largest /\
       In largest (map items_item_id (items env)) /\
       ~ In largest ids /\ ~ In 0 ids /\
       StronglySorted lt ids /\
       (forall x, In x ids <->
                  1 <= x < largest /\ ~ In x (seen_movies_of env user_id))).
Proof.
  split.
  - intros E. unfold unseen_item_ids. rewrite E. reflexivity.
  - intros ids H.
    destruct (unseen_item_ids_spec env user_id ids H) as (mx & Hmax & Hspec).
    exists mx. split; [exact Hmax|]. split; [apply (max_spec _ _ Hmax)|].
    split; [intros Hin; apply Hspec in Hin; lia|].
    split; [intros Hin; apply Hspec in Hin; lia|]. split; [|exact Hspec].
    unfold unseen_item_ids in H. rewrite Hmax in H. simpl in H. injection H as <-.
    apply StronglySorted_filter, seq_ascending.
Qed.

Lemma recommend_titles_by_position_witness :
  exists item_ids,
    unseen_item_ids sample_env 1 = Ok item_ids /\
    forall title r, In (title, r) [ ("Toy Story"%string, 3%R) ] ->
      exists p candidate row,
        nth_error item_ids p = Some candidate /\
        predict_one sample_model 1 candidate = Ok r /\
        pd.loc (indexed_items sample_env) p = Ok row /\ title = items_title row.
Proof.
  apply (recommend_titles_by_position stable_kernel sample_env sample_model 1 1).
  assert (U : unseen_item_ids sample_env 1 = Ok [2; 3]) by reflexivity.
  unfold recommend. rewrite U. cbn [bind length repeat].
  rewrite predict_sample. cbn [bind].
  rewrite (argsort_two stable_kernel 2 3 stable_kernel_contract) by lra.
  reflexivity.
Defined.

Lemma loc_cases {V : Type} (s : list (nat * V)) (label : nat) :
  (exists v, pd.loc s label = Ok v) \/ pd.loc s label = Raise KeyError.
Proof.
  unfold pd.loc. destruct (find (fun p => fst p =? label) s); eauto.
Qed.

Lemma mapM_single_error {A B : Type} (f : A -> result B) (l : list A) (e : exn) :
  (forall x, In x l -> (exists y, f x = Ok y) \/ f x = Raise e) ->
  (exists r, mapM f l = Ok r) \/
  (mapM f l = Raise e /\ exists x, In x l /\ f x = Raise e).
Proof.
  induction l as [|a t IH]; simpl; intros H; [left; eauto|].
  destruct (H a (or_introl eq_refl)) as [[y Hy]|Hy]; rewrite Hy; simpl.
  - destruct IH as [[r Hr]|[Hr (x & Hx & Fx)]]; [intros; apply H; now right| |].
    + rewrite Hr. simpl. left. eauto.
    + rewrite Hr. simpl. right. split; [reflexivity|]. exists x. auto.
  - right. split; [reflexivity|]. exists a. auto.
Qed.

Lemma tail_slice_In {A : Type} (n : nat) (a : list A) (x : A) :
  In x (np.tail_slice n a) -> In x a.
Proof.
  unfold np.tail_slice. destruct (n =? 0); [trivial|apply In_skipn].
Qed.

Lemma tail_slice_length {A : Type} (n : nat) (a : list A) :
  length (np.tail_slice n a) = if n =? 0 then length a else Nat.min n (length a).
Proof.
  unfold np.tail_slice. destruct (n =? 0); [reflexivity|].
  rewrite length_skipn. lia.
Qed.

Lemma tail_slice_all {A : Type} (n : nat) (a : list A) :
  n = 0 \/ length a <= n -> np.tail_slice n a = a.
Proof.
  unfold np.tail_slice. intros [->|H]; [reflexivity|].
  destruct (n =? 0); [reflexivity|].
  replace (length a - n) with 0 by lia. reflexivity.
Qed.

(** The candidates are within the bounds of a model created for the
    prepared frames. *)
Lemma candidates_in_bounds (items0 : list Item.t) (raw_ratings : list Rating.t)
    (user_id max_item_id : nat) (ids : list nat) :
  pd.max (item_id_array (all_ratings (prepare items0 raw_ratings))) = Ok max_item_id ->
  unseen_item_ids (prepare items0 raw_ratings) user_id = Ok ids ->
  forall i, In i ids -> i <= max_item_id.
Proof.
  intros Mi U i Hi.
  destruct (unseen_item_ids_spec _ _ _ U) as (mx & Hmax & Hspec).
  apply Hspec in Hi. destruct (max_spec _ _ Hmax) as [Hin _].
  apply items_ids_in_ratings in Hin. destruct (max_spec _ _ Mi) as [_ Hle].
  specialize (Hle mx Hin). lia.
Qed.

(** [recommend] once the candidates and their predicted ratings are
    known. *)
Lemma recommend_run (argsort : argsort_kernel) (env : Frames) (m : RegressionModel)
    (user_id top_n : nat) (ids : list nat) (ratings : list R) :
  argsort_contract argsort ->
  unseen_item_ids env user_id = Ok ids ->
  predict m (repeat user_id (length ids), ids) = Ok ratings ->
  let top_items := np.reversed (np.tail_slice top_n (argsort ratings)) in
  length top_items = (if top_n =? 0 then length ids else Nat.min top_n (length ids)) /\
  (forall p, In p top_items -> p < length ratings) /\
  (top_n = 0 \/ length ids <= top_n -> In 0 top_items) /\
  ((exists res, recommend argsort env m user_id top_n = Ok res /\
                length res = length top_items) \/
   (recommend argsort env m user_id top_n = Raise KeyError /\
    exists p, In p top_items /\ pd.loc (indexed_items env) p = Raise KeyError)).
Proof.
  intros Hsorts U P top_items.
  destruct (Hsorts ratings) as [Hperm _].
  pose proof (predict_length _ _ _ _ P) as L.
  assert (Hpos : 0 < length ids).
  { unfold predict in P. simpl in P. rewrite repeat_length, Nat.eqb_refl in P.
    simpl in P. destruct (Nat.eqb_spec (length ids) 0); [discriminate|lia]. }
  assert (Hbound : forall p, In p top_items -> p < length ratings).
  { intros p Hp. unfold top_items, np.reversed in Hp. apply in_rev in Hp.
    apply tail_slice_In in Hp.
    apply (Permutation_in _ Hperm) in Hp.
    apply in_seq in Hp. lia. }
  split; [|split; [exact Hbound|split]].
  - unfold top_items, np.reversed. rewrite length_rev, tail_slice_length.
    rewrite (Permutation_length Hperm), length_seq, L.
    reflexivity.
  - intros Hall. unfold top_items, np.reversed. apply in_rev. rewrite rev_involutive.
    rewrite tail_slice_all.
    + apply (Permutation_in _ (Permutation_sym Hperm)).
      apply in_seq. lia.
    + rewrite (Permutation_length Hperm), length_seq. lia.
  - unfold recommend. rewrite U. cbn [bind]. rewrite P. cbn [bind]. fold top_items.
    set (f := fun item_id : nat =>
                row <- pd.loc (indexed_items env) item_id ;;
                r <- np.getitem ratings item_id ;; Ok (items_title row, r)).
    destruct (mapM_single_error f top_items KeyError) as [[res Hres]|[Hr (p & Hp & Fp)]].
    + intros p Hp. unfold f.
      destruct (loc_cases (indexed_items env) p) as [[row ->] | ->]; simpl; [|now right].
      left. unfold np.getitem.
      destruct (nth_error ratings p) as [r|] eqn:N; simpl; [eauto|].
      apply nth_error_None in N. specialize (Hbound p Hp). lia.
    + left. exists res. split; [exact Hres|]. now apply mapM_ok_length in Hres.
    + right. split; [exact Hr|]. exists p. split; [exact Hp|].
      unfold f in Fp.
      destruct (loc_cases (indexed_items env) p) as [[row Hrow]|Hk]; [|exact Hk].
      rewrite Hrow in Fp. simpl in Fp. unfold np.getitem in Fp.
      destruct (nth_error ratings p); discriminate.
Qed.

(** X17: in the notebook's pipeline [recommend] cannot fail on an id out
    of range: for a model of the shape fixed by the model cell, a user id
    within bounds and at least one candidate, the call either returns (as
    many entries as [top_n] asks for, all candidates when [top_n] is 0 or
    exceeds their number) or raises [KeyError] from the title lookup. *)
Theorem recommend_outcomes (argsort : argsort_kernel) (items0 : list Item.t)
    (raw_ratings : list Rating.t) (m : RegressionModel)
    (max_user_id max_item_id user_id top_n : nat) (ids : list nat) :
  let env := prepare items0 raw_ratings in
  argsort_contract argsort ->
  pd.max (item_id_array (all_ratings env)) = Ok max_item_id ->
  model_sized m max_user_id max_item_id ->
  user_id <= max_user_id ->
  unseen_item_ids env user_id = Ok ids -> ids <> [] ->
  (exists res, recommend argsort env m user_id top_n = Ok res /\
               length res = if top_n =? 0 then length ids
                            else Nat.min top_n (length ids)) \/
  recommend argsort env m user_id top_n = Raise KeyError.
Proof.
  intros env Hk Mi Hm Hu U Hne.
  destruct (predict_in_bounds m max_user_id max_item_id
              (repeat user_id (length ids)) ids Hm) as (ratings & P & _).
  - apply repeat_length.
  - rewrite repeat_length. destruct ids; [contradiction|simpl; lia].
  - intros u Hin. apply repeat_spec in Hin. now subst.
  - now apply (candidates_in_bounds items0 raw_ratings user_id).
  - destruct (recommend_run argsort env m user_id top_n ids ratings Hk U P)
      as (Hlen & _ & _ & [(res & Hres & Lres)|[Hr _]]).
    + left. exists res. split; [exact Hres|]. now rewrite Lres.
    + now right.
Qed.

(** X18: asking [recommend] for all the candidates always fails when no
    item has id 0: with [top_n] equal to 0 or at least the number of
    candidates, position 0 of the candidate array is selected and is
    looked up as an item id, which raises [KeyError]. *)
Theorem recommend_all_candidates_fails (argsort : argsort_kernel)
    (items0 : list Item.t) (raw_ratings : list Rating.t) (m : RegressionModel)
    (max_user_id max_item_id user_id top_n : nat) (ids : list nat) :
  let env := prepare items0 raw_ratings in
  argsort_contract argsort ->
  (forall it, In it items0 -> 1 <= Item.item_id it) ->
  pd.max (item_id_array (all_ratings env)) = Ok max_item_id ->
  model_sized m max_user_id max_item_id ->
  user_id <= max_user_id ->
  unseen_item_ids env user_id = Ok ids -> ids <> [] ->
  top_n = 0 \/ length ids <= top_n ->
  recommend argsort env m user_id top_n = Raise KeyError.
Proof.
  intros env Hk Hids Mi Hm Hu U Hne Hall.
  destruct (predict_in_bounds m max_user_id max_item_id
              (repeat user_id (length ids)) ids Hm) as (ratings & P & _).
  - apply repeat_length.
  - rewrite repeat_length. destruct ids; [contradiction|simpl; lia].
  - intros u Hin. apply repeat_spec in Hin. now subst.
  - now apply (candidates_in_bounds items0 raw_ratings user_id).
  - destruct (recommend_run argsort env m user_id top_n ids ratings Hk U P)
      as (_ & _ & H0 & [(res & Hres & _)|[Hr _]]); [|exact Hr].
    exfalso. specialize (H0 Hall).
    unfold recommend in Hres. rewrite U in Hres. cbn [bind] in Hres.
    rewrite P in Hres. cbn [bind] in Hres.
    destruct (mapM_In _ _ _ Hres 0 H0) as [y Hy].
    assert (Hno : pd.loc (indexed_items env) 0 = Raise KeyError).
    { apply loc_missing. intros [k [p it]] Hin E. simpl in E. subst k.
      unfold env, prepare, pd.set_index in Hin. simpl in Hin.
      apply in_map_iff in Hin. destruct Hin as ([p' it'] & E' & Hin).
      injection E' as E1 -> ->. unfold items_item_id in E1. simpl in E1.
      apply items_after_merge in Hin. destruct Hin as (Hit & _ & Ek).
      specialize (Hids it Hit). lia. }
    rewrite Hno in Hy. discriminate.
Qed.

Lemma recommend_outcomes_witness :
  (exists res, recommend stable_kernel sample_env sample_model 1 1 = Ok res /\
               length res = if 1 =? 0 then length [2; 3] else Nat.min 1 (length [2; 3])) \/
  recommend stable_kernel sample_env sample_model 1 1 = Raise KeyError.
Proof.
  apply (recommend_outcomes stable_kernel sample_items sample_ratings sample_model
           2 4 1 1 [2; 3]).
  - exact stable_kernel_contract.
  - reflexivity.
  - exact sample_model_sized.
  - lia.
  - reflexivity.
  - discriminate.
Defined.

Lemma recommend_all_candidates_fails_witness :
  recommend stable_kernel sample_env sample_model 1 2 = Raise KeyError.
Proof.
  apply (recommend_all_candidates_fails stable_kernel sample_items sample_ratings
           sample_model 2 4 1 2 [2; 3]).
  - exact stable_kernel_contract.
  - intros it Hin. simpl in Hin. intuition (subst; simpl; lia).
  - reflexivity.
  - exact sample_model_sized.
  - lia.
  - reflexivity.
  - discriminate.
  - right. simpl. lia.
Defined.

(** ** More on [most_similar] *)

Lemma NoDup_firstn {A : Type} (n : nat) (l : list A) : NoDup l -> NoDup (firstn n l).
Proof.
  intros H. rewrite <- (firstn_skipn n l) in H. now apply NoDup_app_remove_r in H.
Qed.


(** In a series whose labels are all different, a label selects at most
    one row. *)
Lemma filter_unique_label {V : Type} (s : list (nat * V)) (label : nat) :
  NoDup (map fst s) ->
  filter (fun p => fst p =? label) s =
  match find (fun p => fst p =? label) s with Some p => [p] | None => [] end.
Proof.
  induction s as [|p t IH]; simpl; intros Hnd; [reflexivity|].
  inversion Hnd as [|? ? Hp Ht]; subst.
  destruct (Nat.eqb_spec (fst p) label) as [E|E]; [|now apply IH].
  f_equal. apply filter_none. intros q Hq. apply Nat.eqb_neq. intros Eq.
  apply Hp. rewrite E, <- Eq. now apply in_map.
Qed.

Lemma getitem_labels_unique {V : Type} (s : list (nat * V)) (labels : list nat) :
  NoDup (map fst s) -> pd.getitem_labels s labels = mapM (pd.loc s) labels.
Proof.
  intros Hnd. unfold pd.getitem_labels.
  assert (L : forall k, pd.loc_all s k = (v <- pd.loc s k ;; Ok [v])).
  { intros k. unfold pd.loc_all, pd.loc. rewrite (filter_unique_label s k Hnd).
    destruct (find (fun p => fst p =? k) s); reflexivity. }
  induction labels as [|k t IH]; simpl; [reflexivity|].
  rewrite L. destruct (pd.loc s k) as [v|e]; simpl; [|reflexivity].
  destruct (mapM (pd.loc_all s) t) as [rows|e]; simpl in IH |- *.
  - destruct (mapM (pd.loc s) t) as [vs|e]; simpl in IH |- *; [|discriminate].
    now injection IH as ->.
  - destruct (mapM (pd.loc s) t) as [vs|e']; simpl in IH |- *; [discriminate|].
    exact IH.
Qed.

(** X19: whatever [most_similar] returns is consistent: at most [top_n]
    entries, no row index twice, every index a row of the table and a
    label of the titles; and, when no label is repeated in the titles,
    every title is the one found under the entry's own index (unlike
    [recommend], index and title agree). *)
Theorem most_similar_entries (argsort : argsort_kernel) (item_id : nat) (M : matrix)
    (titles : list (nat * string)) (top_n : nat) (res : list (nat * string * R)) :
  argsort_contract argsort ->
  most_similar argsort item_id M titles top_n = Ok res ->
  length res <= top_n /\
  NoDup (map entry_id res) /\
  (forall e, In e res ->
     entry_id e < length (mrows M) /\ In (entry_id e) (map fst titles)) /\
  (NoDup (map fst titles) ->
   forall e, In e res -> pd.loc titles (entry_id e) = Ok (snd (fst e))).
Proof.
  intros Hk Hres.
  destruct (most_similar_ok_inv _ _ _ _ _ _ Hres)
    as (target & Htarget & Hdim & Hcols & Hall).
  destruct (most_similar_inv argsort Hk item_id M titles top_n target
              Htarget Hdim Hcols res Hres) as [Hkeys _].
  assert (Hids : map entry_id res
                 = map fst (firstn top_n (ranked argsort (similarities target M)))).
  { rewrite <- Hkeys, map_map. reflexivity. }
  split; [|split; [|split]].
  - rewrite <- (length_map entry_key), Hkeys. apply firstn_le_length.
  - rewrite Hids, <- firstn_map. apply NoDup_firstn.
    eapply Permutation_NoDup;
      [apply Permutation_sym, (ranked_fst_perm argsort Hk)|apply seq_NoDup].
  - intros e He. split; [|now apply (Hall e He)].
    apply (top_index_bound argsort Hk M top_n target). rewrite <- Hids.
    now apply in_map.
  - intros Hnd e He.
    rewrite (most_similar_unfold argsort Hk item_id M titles top_n target
               Htarget Hdim Hcols) in Hres.
    rewrite (getitem_labels_unique titles _ Hnd) in Hres.
    destruct (mapM (pd.loc titles)
                (map fst (firstn top_n (ranked argsort (similarities target M)))))
      as [ts|] eqn:G; simpl in Hres; [|discriminate].
    injection Hres as <-. destruct e as [[i t] s]. simpl.
    apply in_combine_l in He. exact (mapM_combine _ _ _ _ _ G He).
Qed.

Lemma most_similar_entries_witness :
  let res := [ (2, "GoldenEye"%string, 1%R); (1, "Toy Story"%string, 1%R) ] in
  length res <= 2 /\
  NoDup (map entry_id res) /\
  (forall e, In e res ->
     entry_id e < length (mrows sample_embeddings) /\
     In (entry_id e) (map fst sample_titles)) /\
  (NoDup (map fst sample_titles) ->
   forall e, In e res -> pd.loc sample_titles (entry_id e) = Ok (snd (fst e))).
Proof.
  apply (most_similar_entries stable_kernel 1 sample_embeddings sample_titles 2).
  - exact stable_kernel_contract.
  - exact most_similar_sample.
Defined.

(** X20: the ways [most_similar] can fail, for a well-formed table: an
    [item_id] beyond the last row raises [IndexError]; a table without
    columns raises [ValueError]; otherwise the call returns, or raises
    [KeyError] because some row index has no title.  Fetching the
    similarities of the selected indexes never fails. *)
Theorem most_similar_failures (argsort : argsort_kernel) (item_id : nat) (M : matrix)
    (titles : list (nat * string)) (top_n : nat) :
  argsort_contract argsort ->
  well_shaped M ->
  (length (mrows M) <= item_id ->
   most_similar argsort item_id M titles top_n = Raise IndexError) /\
  (item_id < length (mrows M) -> ncols M = 0 ->
   most_similar argsort item_id M titles top_n = Raise ValueError) /\
  (item_id < length (mrows M) -> 0 < ncols M ->
   (exists res, most_similar argsort item_id M titles top_n = Ok res) \/
   (most_similar argsort item_id M titles top_n = Raise KeyError /\
    exists j, j < length (mrows M) /\ ~ In j (map fst titles))).
Proof.
  intros Hk Hw. split; [|split].
  - intros Hout. unfold most_similar, np.getitem.
    destruct (nth_error (mrows M) item_id) eqn:E; [|reflexivity].
    assert (item_id < length (mrows M)) by (apply nth_error_Some; congruence). lia.
  - intros Hin Hz. unfold most_similar, np.getitem.
    destruct (nth_error (mrows M) item_id) as [target|] eqn:E;
      [|apply nth_error_None in E; lia].
    simpl. unfold sk.cosine_similarity, sk.check_pairwise_arrays. simpl.
    rewrite Hz. simpl. rewrite !orb_true_r. reflexivity.
  - intros Hin Hcols.
    destruct (nth_error (mrows M) item_id) as [target|] eqn:Htarget;
      [|apply nth_error_None in Htarget; lia].
    pose proof (well_shaped_row M item_id target Hw Htarget) as Hdim.
    rewrite (most_similar_unfold argsort Hk item_id M titles top_n target
               Htarget Hdim Hcols).
    unfold pd.getitem_labels.
    destruct (mapM_single_error (pd.loc_all titles)
                (map fst (firstn top_n (ranked argsort (similarities target M))))
                KeyError)
      as [[ts Hts]|[Hr (j & Hj & Fj)]].
    + intros j _. destruct (pd.loc_all titles j) as [vs|e] eqn:E; [eauto|].
      right. apply loc_all_raises in E. now subst.
    + left. rewrite Hts. simpl. eauto.
    + right. rewrite Hr. simpl. split; [reflexivity|]. exists j. split.
      * now apply (top_index_bound argsort Hk M top_n target).
      * intros Hlabel. destruct (loc_all_present titles j Hlabel) as (v & Hv).
        rewrite Hv in Fj. discriminate.
Qed.

Lemma most_similar_failures_witness :
  most_similar stable_kernel 7 sample_embeddings sample_titles 2 = Raise IndexError.
Proof.
  refine (proj1 (most_similar_failures stable_kernel 7 sample_embeddings sample_titles 2
                   stable_kernel_contract _) _).
  - exact sample_embeddings_shaped.
  - simpl. lia.
Defined.

(** ** More on the release dates *)

Lemma to_datetime_inv (parse : string -> option Timestamp) (col : list (option string))
    (dates : list (option Timestamp)) :
  pd.to_datetime parse col = Ok dates -> dates = map (pd.converted parse) col.
Proof.
  intros H. assert (Hall : forall s, In (Some s) col -> parse s <> None).
  { intros s Hs. destruct (mapM_In _ _ _ H (Some s) Hs) as [y Hy]. simpl in Hy.
    destruct (parse s); [discriminate|discriminate]. }
  rewrite (to_datetime_ok parse col Hall) in H. now injection H.
Qed.

(** X21: when the date conversion succeeds, the items table keeps its
    rows, in order, with their ids, titles and other columns unchanged;
    the release date of an item is the parsed form of its date string and
    its release year is the year of that date. *)
Theorem release_year_cell_rows (parse : string -> option Timestamp)
    (raw : list RawItem.t) (items1 : list Item.t) :
  release_year_cell parse raw = Ok items1 ->
  length items1 = length raw /\
  forall i r, nth_error raw i = Some r ->
    exists it,
      nth_error items1 i = Some it /\
      Item.item_id it = RawItem.item_id r /\
      Item.title it = RawItem.title r /\
      Item.video_release_date it = RawItem.video_release_date r /\
      Item.imdb_url it = RawItem.imdb_url r /\
      (forall s, RawItem.release_date r = Some s ->
         exists t, parse s = Some t /\ Item.release_date it = Some t /\
                   Item.release_year it = Some (ts_year t)).
Proof.
  unfold release_year_cell.
  destruct (pd.to_datetime parse (map RawItem.release_date raw)) as [dates|] eqn:D;
    simpl; [|discriminate].
  intros H. injection H as <-.
  pose proof (mapM_In _ _ _ D) as Hcells.
  apply to_datetime_inv in D. subst dates.
  rewrite map_map, combine_map_self, map_map. simpl. split; [apply length_map|].
  intros i r Hi. eexists. split; [rewrite nth_error_map, Hi; reflexivity|].
  simpl. repeat split. intros s Hs.
  destruct (Hcells (Some s)) as [y Hy].
  { rewrite <- Hs. apply in_map. eapply nth_error_In; eassumption. }
  simpl in Hy. rewrite Hs. simpl.
  destruct (parse s) as [t|]; [|discriminate]. exists t. auto.
Qed.

Lemma release_year_cell_rows_witness :
  let raw := [ raw_movie 1 "Toy Story" (Some "01-Jan-1995"%string);
               raw_movie 267 "unknown" None ] in
  exists items1,
    release_year_cell parse_dmy raw = Ok items1 /\
    length items1 = length raw /\
    exists it, nth_error items1 0 = Some it /\ Item.release_year it = Some 1995.
Proof.
  intros raw.
  destruct (release_year_cell parse_dmy raw) as [items1|] eqn:E;
    [|vm_compute in E; discriminate].
  exists items1. split; [reflexivity|].
  destruct (release_year_cell_rows parse_dmy raw items1 E) as [Hlen Hrows].
  split; [exact Hlen|].
  destruct (Hrows 0 (raw_movie 1 "Toy Story" (Some "01-Jan-1995"%string)) eq_refl)
    as (it & Hit & _ & _ & _ & _ & Hdate).
  exists it. split; [exact Hit|].
  destruct (Hdate "01-Jan-1995"%string eq_refl) as (t & Ht & _ & Hy).
  rewrite Hy. vm_compute in Ht. injection Ht as <-. reflexivity.
Defined.
